(** * Automation orchestrator: provider selection, job registry and metrics

    A shallow embedding of [keepers/automation_orchestrator.py],
    [keepers/chainlink/keeper_manager.py] and
    [keepers/gelato/gelato_manager.py].

    Conventions of the embedding:
    - Python [int] is [Z]; the true division [/] of two ints is taken on exact
      rationals ([Q]); [int(x)] truncates toward zero.
    - A naive [datetime] is a point of a totally ordered time line, a [Z].
      [datetime.fromisoformat] is a parameter of the development
      ([None] stands for its [ValueError]).
    - Objects mutated in place are threaded through a state-and-exception
      monad: a raised exception keeps the mutations made before it.
    - [dict]s looked up by key are [gmap]s; [dict]s that the code iterates
      while it may raise are association lists in insertion order. *)

From Stdlib Require Import ZArith QArith Qminmax Lia Lqa Ascii String.
From stdpp Require Import base option list sorting strings pretty gmap.

Local Open Scope Z_scope.

(** ** Exceptions and the state-and-exception monad *)

Inductive AutomationProvider := CHAINLINK | GELATO | AUTO.

#[global] Instance AutomationProvider_eq_dec : EqDecision AutomationProvider.
Proof. solve_decision. Defined.

(** The [ValueError]s the three files raise, by message. *)
Inductive message :=
| NoProvidersAvailable                 (* "No automation providers available" *)
| JobNotFound (job_name : string)      (* "Job {job_name} not found" *)
| ChainlinkNotInitialized              (* "Chainlink Keepers not initialized" *)
| GelatoNotInitialized                 (* "Gelato Network not initialized" *)
| InsufficientLink (need have : Z)     (* "Insufficient LINK balance. Need .., have .." *)
| TaskNotFound (task_name : string)    (* "Task {task_name} not found" *)
| TaskHasNoId (task_name : string)     (* "Task {task_name} has no task ID" *)
| InvalidIsoformat (s : string).       (* raised by datetime.fromisoformat *)

Inductive exn :=
| ValueError (m : message)
| AttributeError        (* a method looked up on None *)
| KeyError (k : string)
| ZeroDivisionError
| ConnectionError.      (* the RPC endpoint does not answer *)

Inductive result (S A : Type) :=
| Return (a : A) (s : S)
| Raise (e : exn) (s : S).
Arguments Return {S A} a s.
Arguments Raise {S A} e s.

Definition Py (S A : Type) : Type := S → result S A.

Definition ret {S A} (a : A) : Py S A := λ s, Return a s.
Definition raise {S A} (e : exn) : Py S A := λ s, Raise e s.
Definition bind {S A B} (m : Py S A) (k : A → Py S B) : Py S B :=
  λ s, match m s with
       | Return a s' => k a s'
       | Raise e s' => Raise e s'
       end.
Definition get {S} : Py S S := λ s, Return s s.
Definition modify {S} (f : S → S) : Py S unit := λ s, Return tt (f s).
(** [try: m except Exception as e: h e; raise] *)
Definition try_reraise {S A} (m : Py S A) (h : exn → S → S) : Py S A :=
  λ s, match m s with
       | Return a s' => Return a s'
       | Raise e s' => Raise e (h e s')
       end.

#[global] Instance Py_ret {S} : MRet (Py S) := λ A, ret.
#[global] Instance Py_bind {S} : MBind (Py S) := λ A B k m, bind m k.

Definition final_state {S A} (r : result S A) : S :=
  match r with Return _ s => s | Raise _ s => s end.


Definition raised {S A} (r : result S A) : option exn :=
  match r with Return _ _ => None | Raise e _ => Some e end.

(** ** Python arithmetic used by the code *)

(** [max(a, b)]: the first of the largest arguments. *)
Definition py_max (a b : Q) : Q := if Qle_bool b a then a else b.

(** [a / b] on two ints. *)
Definition truediv (a b : Z) : Q := inject_Z a / inject_Z b.

(** [int(x)]: truncation toward zero. *)
Definition py_int (x : Q) : Z := Z.quot (Qnum x) (Z.pos (Qden x)).

(** [max(keys, key=f)] over a non-empty iterable: the first key whose [f] is
    largest. *)
Definition max_by {A} (f : A → Q) (first : A) (rest : list A) : A :=
  fold_left (λ best k, if Qle_bool (f k) (f best) then best else k) rest first.

(** ** Data model *)

Definition datetime := Z.

Record AutomationJob := {
  aj_name : string;
  aj_target_contract : string;
  aj_function_name : string;
  aj_check_data : string;
  aj_gas_limit : Z;
  aj_frequency : Z;
  aj_max_fee : Z;
  aj_priority : Z;                      (* 1=low, 2=medium, 3=high *)
  aj_provider : AutomationProvider;
  aj_active : bool;
  aj_created_at : option datetime;
  aj_last_execution : option datetime
}.

Record ExecutionMetrics := {
  total_executions : Z;
  successful_executions : Z;
  failed_executions : Z;
  total_gas_used : Z;
  total_fees_paid : Z;
  average_execution_time : Q;
  last_execution_time : option datetime
}.

(** [ExecutionMetrics()] *)
Definition ExecutionMetrics_default : ExecutionMetrics :=
  {| total_executions := 0; successful_executions := 0;
     failed_executions := 0; total_gas_used := 0; total_fees_paid := 0;
     average_execution_time := 0%Q; last_execution_time := None |}.


(** *** Provider-native records *)

Record KeeperJob := {
  kj_name : string;
  kj_contract_address : string;
  kj_function_name : string;
  kj_check_data : string;
  kj_gas_limit : Z;
  kj_trigger_condition : string;
  kj_frequency : Z;
  kj_last_execution : option datetime;
  kj_active : bool
}.

Record GelatoTask := {
  gt_name : string;
  gt_target_contract : string;
  gt_function_selector : string;
  gt_resolver_contract : string;
  gt_resolver_data : string;
  gt_interval : Z;
  gt_max_fee : Z;
  gt_active : bool;
  gt_task_id : option string;
  gt_created_at : option datetime;
  gt_last_execution : option datetime
}.

Record TaskExecution := {
  te_task_id : option string;
  te_execution_time : datetime;
  te_gas_used : Z;
  te_fee_paid : Z;
  te_success : bool;
  te_error_message : option string
}.

(** *** The chain and the clock, as the adapters see them through [w3] *)

Inductive call :=
| approve (spender : string) (amount : Z)
| registerUpkeep (name encrypted_email target : string) (gas_limit : Z)
    (admin check_data : string) (amount source : Z)
| createTask (exec_address exec_data resolver_address resolver_data : string)
| cancelTask (task_id : string).

Record transaction := {
  tx_call : call;
  tx_from : string;
  tx_gas : Z;
  tx_gasPrice : Z;
  tx_nonce : Z
}.

Inductive event :=
| UpkeepRegistered (id : Z).

Record receipt := {
  rc_transaction : transaction;
  rc_logs : list event
}.

Record World := {
  online : bool;                 (* does the RPC endpoint answer? *)
  link_balance : Z;              (* link_token.balanceOf(account) *)
  gas_price : Z;                 (* w3.eth.gas_price *)
  transaction_count : Z;         (* w3.eth.get_transaction_count(account) *)
  sent : list receipt;           (* transactions broadcast so far, oldest first *)
  next_upkeep_id : Z;            (* the identifier the registry assigns next *)
  now : datetime                 (* datetime.now() *)
}.

(** The world after one more transaction of the account was broadcast. *)
Definition set_sent (f : list receipt → list receipt) (w : World) : World :=
  {| online := online w; link_balance := link_balance w;
     gas_price := gas_price w; transaction_count := transaction_count w + 1;
     sent := f (sent w);
     next_upkeep_id := next_upkeep_id w; now := now w |}.

Definition bump_upkeep_id (w : World) : World :=
  {| online := online w; link_balance := link_balance w;
     gas_price := gas_price w; transaction_count := transaction_count w;
     sent := sent w;
     next_upkeep_id := next_upkeep_id w + 1; now := now w |}.

(** A read over RPC. *)
Definition rpc {A} (f : World → A) : Py World A :=
  λ w, if online w then Return (f w) w else Raise ConnectionError w.

(** What the chain logs when it mines a transaction. *)
Definition mine (tx : transaction) (w : World) : receipt * World :=
  match tx_call tx with
  | registerUpkeep _ _ _ _ _ _ _ _ =>
      ({| rc_transaction := tx;
          rc_logs := [UpkeepRegistered (next_upkeep_id w)] |},
       bump_upkeep_id w)
  | _ => ({| rc_transaction := tx; rc_logs := [] |}, w)
  end.

(** [w3.eth.send_raw_transaction]: returns the hash, here the position of the
    transaction among those sent. *)
Definition send_raw_transaction (tx : transaction) : Py World nat :=
  λ w, if online w
       then let '(r, w') := mine tx w in
            Return (length (sent w)) (set_sent (λ l, l ++ [r]) w')
       else Raise ConnectionError w.

(** [w3.eth.wait_for_transaction_receipt] *)
Definition wait_for_transaction_receipt (tx_hash : nat) : Py World receipt :=
  λ w, if online w
       then match sent w !! tx_hash with
            | Some r => Return r w
            | None => Raise (KeyError "transaction") w
            end
       else Raise ConnectionError w.

(** [contract.functions.f(args).build_transaction({'from', 'gas', 'gasPrice',
    'nonce'})] *)
Definition build_transaction (c : call) (from : string) (gas : Z)
  : Py World transaction :=
  price ← rpc gas_price;
  nonce ← rpc transaction_count;
  mret {| tx_call := c; tx_from := from; tx_gas := gas;
          tx_gasPrice := price; tx_nonce := nonce |}.

(** [account.sign_transaction(tx)] followed by [.rawTransaction]. *)
Definition sign_transaction (tx : transaction) : transaction := tx.

(** Run a computation on a part of the state. *)
Definition zoom {S T A} (proj : S → T) (upd : T → S → S) (m : Py T A)
  : Py S A :=
  λ s, match m (proj s) with
       | Return a t => Return a (upd t s)
       | Raise e t => Raise e (upd t s)
       end.

(** [for x in xs: body(x)] *)
Fixpoint for_each {S A} (xs : list A) (body : A → Py S unit) : Py S unit :=
  match xs with
  | [] => mret tt
  | x :: xs' => body x;; for_each xs' body
  end.

(** Truthiness of an optional string: [None] and [""] are falsy. *)
Definition truthy (o : option string) : bool :=
  match o with
  | Some s => negb (bool_decide (s = ""))
  | None => false
  end.

(** *** A concrete [fromisoformat] for the examples

    The form [YYYY-MM-DDTHH:MM:SS] only; the datetime is the decimal number
    [YYYYMMDDHHMMSS], whose order is the chronological order. *)

Definition digit_value (c : ascii) : option Z :=
  let n := Z.of_N (N_of_ascii c) - 48 in
  if bool_decide (0 ≤ n ≤ 9) then Some n else None.

Fixpoint digits_value (cs : list ascii) (acc : Z) : option Z :=
  match cs with
  | [] => Some acc
  | c :: cs' => d ← digit_value c; digits_value cs' (10 * acc + d)
  end.

Definition field (cs : list ascii) (start len : nat) : option Z :=
  digits_value (take len (drop start cs)) 0.

Definition separator (cs : list ascii) (i : nat) (c : string) : bool :=
  bool_decide (String.string_of_list_ascii (take 1 (drop i cs)) = c).

Definition is_leap (y : Z) : bool :=
  bool_decide (y mod 4 = 0 ∧ (y mod 100 ≠ 0 ∨ y mod 400 = 0)).

Definition days_in_month (y m : Z) : Z :=
  if bool_decide (m = 2) then (if is_leap y then 29 else 28)
  else if bool_decide (m = 4 ∨ m = 6 ∨ m = 9 ∨ m = 11) then 30
  else 31.

Definition fromisoformat_basic (s : string) : option datetime :=
  let cs := String.list_ascii_of_string s in
  if bool_decide (length cs = 19%nat)
     && separator cs 4 "-" && separator cs 7 "-" && separator cs 10 "T"
     && separator cs 13 ":" && separator cs 16 ":"
  then
    y ← field cs 0 4; m ← field cs 5 2; d ← field cs 8 2;
    h ← field cs 11 2; mi ← field cs 14 2; sec ← field cs 17 2;
    if bool_decide (1 ≤ y ∧ 1 ≤ m ≤ 12 ∧ 1 ≤ d ≤ days_in_month y m
                    ∧ h ≤ 23 ∧ mi ≤ 59 ∧ sec ≤ 59)
    then Some (((((y * 100 + m) * 100 + d) * 100 + h) * 100 + mi) * 100 + sec)
    else None
  else None.

(** ** The registry-style adapter: [ChainlinkKeeperManager] *)

Record ChainlinkKeeperManager := {
  km_account : string;                  (* self.account.address *)
  keeper_registry_address : string;
  link_token_address : string;
  km_jobs : gmap string KeeperJob       (* self.jobs *)
}.

Definition km_set_jobs (f : gmap string KeeperJob → gmap string KeeperJob)
    (self : ChainlinkKeeperManager) : ChainlinkKeeperManager :=
  {| km_account := km_account self;
     keeper_registry_address := keeper_registry_address self;
     link_token_address := link_token_address self;
     km_jobs := f (km_jobs self) |}.

(** [_extract_upkeep_id_from_receipt]: "For now, return a placeholder". *)
Definition _extract_upkeep_id_from_receipt (r : receipt) : Z := 1.

(** The module's logger is not part of the model: the handler of
    [except Exception as e: logger.error(..); raise] leaves the state as it
    is. *)
Definition log_only {S} (e : exn) (s : S) : S := s.

Definition default_funding_amount : Z := 5 * 10 ^ 18.

Definition register_upkeep (self : ChainlinkKeeperManager)
    (name target_contract : string) (gas_limit : Z) (check_data : string)
    (funding_amount : Z) : Py World Z :=
  try_reraise
    (balance ← rpc link_balance;
     if bool_decide (balance < funding_amount)
     then raise (ValueError (InsufficientLink funding_amount balance))
     else
       approve_tx ← build_transaction
         (approve (keeper_registry_address self) funding_amount)
         (km_account self) 100000;
       approve_hash ← send_raw_transaction (sign_transaction approve_tx);
       wait_for_transaction_receipt approve_hash;;
       register_tx ← build_transaction
         (registerUpkeep name "" target_contract gas_limit (km_account self)
            check_data funding_amount 0)
         (km_account self) 500000;
       register_hash ← send_raw_transaction (sign_transaction register_tx);
       rcpt ← wait_for_transaction_receipt register_hash;
       mret (_extract_upkeep_id_from_receipt rcpt))
    log_only.

(** [ChainlinkKeeperManager.add_job] *)
Definition keeper_add_job (job : KeeperJob) (self : ChainlinkKeeperManager)
  : ChainlinkKeeperManager :=
  km_set_jobs (insert (kj_name job) job) self.

(** [ChainlinkKeeperManager.remove_job] *)
Definition remove_job (job_name : string) (self : ChainlinkKeeperManager)
  : ChainlinkKeeperManager :=
  if bool_decide (is_Some (km_jobs self !! job_name))
  then km_set_jobs (delete job_name) self
  else self.

(** ** The orchestrator's data *)

(** [provider.value] *)
Definition value (p : AutomationProvider) : string :=
  match p with
  | CHAINLINK => "chainlink"
  | GELATO => "gelato"
  | AUTO => "auto"
  end.

(** What the orchestrator module's [logger] has been sent. *)
Inductive log_record :=
| InfoAdded (job_name : string) (provider : AutomationProvider)
| InfoSelected (provider : AutomationProvider) (job_name : string) (score : Q)
| InfoDeployed (job_name : string) (provider : AutomationProvider)
| InfoCancelled (job_name : string)
| ErrorDeploy (job_name : string) (e : exn)
| ErrorCancel (job_name : string) (e : exn).

(** ** The relay-style adapter: [GelatoManager] *)

Record GelatoManager := {
  gm_account : string;                  (* self.account.address *)
  gelato_ops_address : string;
  tasks : gmap string GelatoTask;       (* self.tasks *)
  executions : list TaskExecution       (* self.executions *)
}.

Definition gm_set_tasks (f : gmap string GelatoTask → gmap string GelatoTask)
    (self : GelatoManager) : GelatoManager :=
  {| gm_account := gm_account self;
     gelato_ops_address := gelato_ops_address self;
     tasks := f (tasks self); executions := executions self |}.

Definition gt_set_active (b : bool) (t : GelatoTask) : GelatoTask :=
  {| gt_name := gt_name t; gt_target_contract := gt_target_contract t;
     gt_function_selector := gt_function_selector t;
     gt_resolver_contract := gt_resolver_contract t;
     gt_resolver_data := gt_resolver_data t; gt_interval := gt_interval t;
     gt_max_fee := gt_max_fee t; gt_active := b;
     gt_task_id := gt_task_id t; gt_created_at := gt_created_at t;
     gt_last_execution := gt_last_execution t |}.

Definition gt_set_created (id : string) (at_ : datetime) (t : GelatoTask)
  : GelatoTask :=
  {| gt_name := gt_name t; gt_target_contract := gt_target_contract t;
     gt_function_selector := gt_function_selector t;
     gt_resolver_contract := gt_resolver_contract t;
     gt_resolver_data := gt_resolver_data t; gt_interval := gt_interval t;
     gt_max_fee := gt_max_fee t; gt_active := gt_active t;
     gt_task_id := Some id; gt_created_at := Some at_;
     gt_last_execution := gt_last_execution t |}.

Definition gt_set_last_execution (d : datetime) (t : GelatoTask) : GelatoTask :=
  {| gt_name := gt_name t; gt_target_contract := gt_target_contract t;
     gt_function_selector := gt_function_selector t;
     gt_resolver_contract := gt_resolver_contract t;
     gt_resolver_data := gt_resolver_data t; gt_interval := gt_interval t;
     gt_max_fee := gt_max_fee t; gt_active := gt_active t;
     gt_task_id := gt_task_id t; gt_created_at := gt_created_at t;
     gt_last_execution := Some d |}.

(** One element of [status["executions"]]; [None] is an absent key. *)
Record ExecutionEntry := {
  ee_timestamp : option string;
  ee_gasUsed : option Z;
  ee_feePaid : option Z;
  ee_success : option bool;
  ee_error : option string
}.

(** The JSON object [get_task_status] returns. *)
Record TaskStatus := {
  st_executions : option (list ExecutionEntry)
}.

(** Run on the world component of an adapter-and-world state. *)
Definition on_world {M A} (m : Py World A) : Py (M * World) A :=
  zoom snd (λ w s, (s.1, w)) m.

(** [datetime.now()] *)
Definition datetime_now {M} : Py (M * World) datetime :=
  λ s, Return (now s.2) s.

(** [not last or t > last] *)
Definition newer_than (last : option datetime) (t : datetime) : bool :=
  match last with
  | None => true
  | Some l => bool_decide (l < t)
  end.

Section Embedding.

(** [datetime.fromisoformat]; [None] is its [ValueError]. *)
Variable fromisoformat : string → option datetime.
(** [datetime.isoformat] *)
Variable isoformat : datetime → string.
(** [w3.keccak(text=s)[:4]] *)
Variable keccak4 : string → string.

Definition parse_iso {S} (s : string) : Py S datetime :=
  match fromisoformat s with
  | Some d => mret d
  | None => raise (ValueError (InvalidIsoformat s))
  end.

(** [_extract_task_id_from_receipt]: the placeholder
    [f"task_{datetime.now().timestamp()}"]. *)
Definition _extract_task_id_from_receipt (r : receipt)
  : Py (GelatoManager * World) string :=
  t ← datetime_now; mret ("task_" +:+ pretty t).

(** [create_task] mutates the task object it is given and stores it; the
    mutated object is returned next to the identifier. *)
Definition create_task (task : GelatoTask)
  : Py (GelatoManager * World) (string * GelatoTask) :=
  try_reraise
    ('(self, _) ← get;
     let function_data := keccak4 (gt_function_selector task) in
     create_tx ← on_world (build_transaction
       (createTask (gt_target_contract task) function_data
          (gt_resolver_contract task) (gt_resolver_data task))
       (gm_account self) 500000);
     tx_hash ← on_world (send_raw_transaction (sign_transaction create_tx));
     rcpt ← on_world (wait_for_transaction_receipt tx_hash);
     task_id ← _extract_task_id_from_receipt rcpt;
     created ← datetime_now;
     let task := gt_set_created task_id created task in
     modify (λ s, (gm_set_tasks (insert (gt_name task) task) s.1, s.2));;
     mret (task_id, task))
    log_only.

Definition cancel_task (task_name : string) : Py (GelatoManager * World) unit :=
  '(self, _) ← get;
  match tasks self !! task_name with
  | None => raise (ValueError (TaskNotFound task_name))
  | Some task =>
      if negb (truthy (gt_task_id task))
      then raise (ValueError (TaskHasNoId task_name))
      else
        try_reraise
          (cancel_tx ← on_world (build_transaction
             (cancelTask (default "" (gt_task_id task)))
             (gm_account self) 200000);
           tx_hash ← on_world
             (send_raw_transaction (sign_transaction cancel_tx));
           on_world (wait_for_transaction_receipt tx_hash);;
           modify (λ s,
             (gm_set_tasks (alter (gt_set_active false) task_name) s.1, s.2)))
          log_only
  end.

(** [GelatoManager.add_task] *)
Definition add_task (task : GelatoTask) (self : GelatoManager)
  : GelatoManager :=
  gm_set_tasks (insert (gt_name task) task) self.

(** [_process_task_status(task, status)]: the state is the task object and
    [self.executions]. *)
Definition _process_task_status (status : TaskStatus)
  : Py (GelatoTask * list TaskExecution) unit :=
  let executions := default [] (st_executions status) in
  for_each executions (λ execution,
    execution_time ← parse_iso (default "" (ee_timestamp execution));
    '(task, _) ← get;
    if newer_than (gt_last_execution task) execution_time
    then
      let task_execution :=
        {| te_task_id := gt_task_id task;
           te_execution_time := execution_time;
           te_gas_used := default 0 (ee_gasUsed execution);
           te_fee_paid := default 0 (ee_feePaid execution);
           te_success := default false (ee_success execution);
           te_error_message := ee_error execution |} in
      modify (λ s, (s.1, s.2 ++ [task_execution]));;
      modify (λ s, (gt_set_last_execution execution_time s.1, s.2))
    else mret tt).


(** ** The orchestrator *)

Record AutomationOrchestrator := {
  chainlink_manager : option ChainlinkKeeperManager;
  gelato_manager : option GelatoManager;
  jobs : gmap string AutomationJob;
  job_assignments : gmap string AutomationProvider;
  metrics : gmap string ExecutionMetrics;
  logged : list log_record
}.

Definition set_chainlink_manager (km : option ChainlinkKeeperManager)
    (self : AutomationOrchestrator) : AutomationOrchestrator :=
  {| chainlink_manager := km; gelato_manager := gelato_manager self;
     jobs := jobs self; job_assignments := job_assignments self;
     metrics := metrics self; logged := logged self |}.

Definition set_gelato_manager (gm : option GelatoManager)
    (self : AutomationOrchestrator) : AutomationOrchestrator :=
  {| chainlink_manager := chainlink_manager self; gelato_manager := gm;
     jobs := jobs self; job_assignments := job_assignments self;
     metrics := metrics self; logged := logged self |}.

Definition set_jobs (f : gmap string AutomationJob → gmap string AutomationJob)
    (self : AutomationOrchestrator) : AutomationOrchestrator :=
  {| chainlink_manager := chainlink_manager self;
     gelato_manager := gelato_manager self;
     jobs := f (jobs self); job_assignments := job_assignments self;
     metrics := metrics self; logged := logged self |}.

Definition set_job_assignments
    (f : gmap string AutomationProvider → gmap string AutomationProvider)
    (self : AutomationOrchestrator) : AutomationOrchestrator :=
  {| chainlink_manager := chainlink_manager self;
     gelato_manager := gelato_manager self;
     jobs := jobs self; job_assignments := f (job_assignments self);
     metrics := metrics self; logged := logged self |}.

Definition set_metrics
    (f : gmap string ExecutionMetrics → gmap string ExecutionMetrics)
    (self : AutomationOrchestrator) : AutomationOrchestrator :=
  {| chainlink_manager := chainlink_manager self;
     gelato_manager := gelato_manager self;
     jobs := jobs self; job_assignments := job_assignments self;
     metrics := f (metrics self); logged := logged self |}.

(** [logger.info(..)] and [logger.error(..)] *)
Definition log (r : log_record) (self : AutomationOrchestrator)
  : AutomationOrchestrator :=
  {| chainlink_manager := chainlink_manager self;
     gelato_manager := gelato_manager self;
     jobs := jobs self; job_assignments := job_assignments self;
     metrics := metrics self; logged := logged self ++ [r] |}.

(** [__init__]: the two managers are those [_initialize_providers] could
    build from the configuration. *)
Definition init (km : option ChainlinkKeeperManager)
    (gm : option GelatoManager) : AutomationOrchestrator :=
  {| chainlink_manager := km; gelato_manager := gm;
     jobs := ∅; job_assignments := ∅; metrics := ∅; logged := [] |}.

(** [self.provider_costs] *)
Definition provider_costs : list (AutomationProvider * Z) :=
  [(CHAINLINK, 20); (GELATO, 25)].

(** [d[k]] on an association list *)
Definition subscript {S K V} `{EqDecision K} (d : list (K * V)) (k : K)
    (shown : string) : Py S V :=
  match list_find (λ kv, kv.1 = k) d with
  | Some (_, (_, v)) => mret v
  | None => raise (KeyError shown)
  end.

Definition aj_set_provider (p : AutomationProvider) (j : AutomationJob)
  : AutomationJob :=
  {| aj_name := aj_name j; aj_target_contract := aj_target_contract j;
     aj_function_name := aj_function_name j;
     aj_check_data := aj_check_data j; aj_gas_limit := aj_gas_limit j;
     aj_frequency := aj_frequency j; aj_max_fee := aj_max_fee j;
     aj_priority := aj_priority j; aj_provider := p;
     aj_active := aj_active j; aj_created_at := aj_created_at j;
     aj_last_execution := aj_last_execution j |}.

Definition aj_set_active (b : bool) (j : AutomationJob) : AutomationJob :=
  {| aj_name := aj_name j; aj_target_contract := aj_target_contract j;
     aj_function_name := aj_function_name j;
     aj_check_data := aj_check_data j; aj_gas_limit := aj_gas_limit j;
     aj_frequency := aj_frequency j; aj_max_fee := aj_max_fee j;
     aj_priority := aj_priority j; aj_provider := aj_provider j;
     aj_active := b; aj_created_at := aj_created_at j;
     aj_last_execution := aj_last_execution j |}.

Definition aj_set_created_at (d : datetime) (j : AutomationJob)
  : AutomationJob :=
  {| aj_name := aj_name j; aj_target_contract := aj_target_contract j;
     aj_function_name := aj_function_name j;
     aj_check_data := aj_check_data j; aj_gas_limit := aj_gas_limit j;
     aj_frequency := aj_frequency j; aj_max_fee := aj_max_fee j;
     aj_priority := aj_priority j; aj_provider := aj_provider j;
     aj_active := aj_active j; aj_created_at := Some d;
     aj_last_execution := aj_last_execution j |}.

(** The score of the registry-style adapter, as [_select_best_provider]
    accumulates it. *)
Definition chainlink_score_of (cost_per_gas : Z) (job : AutomationJob) : Q :=
  let chainlink_score := 0%Q in
  let chainlink_cost := cost_per_gas * aj_gas_limit job in
  let chainlink_score :=
    (chainlink_score + py_max 0 (100 - truediv chainlink_cost 1000))%Q in
  let chainlink_score := (chainlink_score + 90)%Q in
  let chainlink_score :=
    if bool_decide (aj_frequency job >= 3600)
    then (chainlink_score + 20)%Q else chainlink_score in
  chainlink_score.

(** The score of the relay-style adapter. *)
Definition gelato_score_of (cost_per_gas : Z) (job : AutomationJob) : Q :=
  let gelato_score := 0%Q in
  let gelato_cost := cost_per_gas * aj_gas_limit job in
  let gelato_score :=
    (gelato_score + py_max 0 (100 - truediv gelato_cost 1000))%Q in
  let gelato_score := (gelato_score + 85)%Q in
  let gelato_score :=
    if bool_decide (aj_frequency job < 3600)
    then (gelato_score + 25)%Q else gelato_score in
  let gelato_score :=
    if bool_decide (aj_priority job >= 2)
    then (gelato_score + 15)%Q else gelato_score in
  gelato_score.

Definition _select_best_provider (job : AutomationJob)
  : Py AutomationOrchestrator AutomationProvider :=
  self ← get;
  let scores : list (AutomationProvider * Q) := [] in
  scores ← (if chainlink_manager self is Some _
            then cost ← subscript provider_costs CHAINLINK "chainlink";
                 mret (scores ++ [(CHAINLINK, chainlink_score_of cost job)])
            else mret scores);
  scores ← (if gelato_manager self is Some _
            then cost ← subscript provider_costs GELATO "gelato";
                 mret (scores ++ [(GELATO, gelato_score_of cost job)])
            else mret scores);
  match scores with
  | [] => raise (ValueError NoProvidersAvailable)
  | first :: rest =>
      let best := max_by snd first rest in
      modify (log (InfoSelected best.1 (aj_name job) best.2));;
      mret best.1
  end.

Definition add_job (job : AutomationJob) : Py AutomationOrchestrator unit :=
  modify (set_metrics (insert (aj_name job) ExecutionMetrics_default));;
  job ← (if bool_decide (aj_provider job = AUTO)
         then p ← _select_best_provider job; mret (aj_set_provider p job)
         else mret job);
  modify (set_jobs (insert (aj_name job) job));;
  modify (set_job_assignments (insert (aj_name job) (aj_provider job)));;
  modify (log (InfoAdded (aj_name job) (aj_provider job))).


(** *** Deployment and cancellation: the state is the orchestrator and the
    world its adapters talk to *)

Definition System : Type := AutomationOrchestrator * World.

Definition on_orchestrator {A} (m : Py AutomationOrchestrator A)
  : Py System A :=
  zoom fst (λ o s, (o, s.2)) m.

(** [self.gelato_manager.method(..)]: an [AttributeError] on [None]. *)
Definition on_gelato {A} (m : Py (GelatoManager * World) A) : Py System A :=
  λ s, match gelato_manager s.1 with
       | None => Raise AttributeError s
       | Some gm =>
           match m (gm, s.2) with
           | Return a t => Return a (set_gelato_manager (Some t.1) s.1, t.2)
           | Raise e t => Raise e (set_gelato_manager (Some t.1) s.1, t.2)
           end
       end.

(** [self.chainlink_manager.method(..)] for a method that only touches the
    manager. *)
Definition on_chainlink (f : ChainlinkKeeperManager → ChainlinkKeeperManager)
  : Py System unit :=
  λ s, match chainlink_manager s.1 with
       | None => Raise AttributeError s
       | Some km => Return tt (set_chainlink_manager (Some (f km)) s.1, s.2)
       end.

Definition _deploy_chainlink_job (job : AutomationJob) : Py System unit :=
  '(self, _) ← get;
  match chainlink_manager self with
  | None => raise (ValueError ChainlinkNotInitialized)
  | Some km =>
      let keeper_job :=
        {| kj_name := aj_name job;
           kj_contract_address := aj_target_contract job;
           kj_function_name := aj_function_name job;
           kj_check_data := aj_check_data job;
           kj_gas_limit := aj_gas_limit job;
           kj_trigger_condition := "time_based";
           kj_frequency := aj_frequency job;
           kj_last_execution := None; kj_active := true |} in
      upkeep_id ← on_world
        (register_upkeep km (aj_name job) (aj_target_contract job)
           (aj_gas_limit job) (aj_check_data job) default_funding_amount);
      on_chainlink (keeper_add_job keeper_job)
  end.

Definition _deploy_gelato_job (job : AutomationJob) : Py System unit :=
  '(self, _) ← get;
  match gelato_manager self with
  | None => raise (ValueError GelatoNotInitialized)
  | Some _ =>
      let gelato_task :=
        {| gt_name := aj_name job;
           gt_target_contract := aj_target_contract job;
           gt_function_selector := aj_function_name job +:+ "()";
           gt_resolver_contract := aj_target_contract job;
           gt_resolver_data := aj_check_data job;
           gt_interval := aj_frequency job;
           gt_max_fee := aj_max_fee job;
           gt_active := true; gt_task_id := None; gt_created_at := None;
           gt_last_execution := None |} in
      '(task_id, gelato_task) ← on_gelato (create_task gelato_task);
      on_gelato (modify (λ s, (add_task gelato_task s.1, s.2)))
  end.

(** [self.job_assignments[job_name]] *)
Definition assignment_of (job_name : string) : Py System AutomationProvider :=
  '(self, _) ← get;
  match job_assignments self !! job_name with
  | Some p => mret p
  | None => raise (KeyError job_name)
  end.

Definition deploy_job (job_name : string) : Py System unit :=
  '(self, _) ← get;
  match jobs self !! job_name with
  | None => raise (ValueError (JobNotFound job_name))
  | Some job =>
      provider ← assignment_of job_name;
      try_reraise
        (match provider with
         | CHAINLINK => _deploy_chainlink_job job
         | GELATO => _deploy_gelato_job job
         | AUTO => mret tt
         end;;
         created ← datetime_now;
         on_orchestrator
           (modify (set_jobs (alter (aj_set_created_at created) job_name)));;
         on_orchestrator (modify (log (InfoDeployed job_name provider))))
        (λ e s, (log (ErrorDeploy job_name e) s.1, s.2))
  end.

Definition cancel_job (job_name : string) : Py System unit :=
  '(self, _) ← get;
  match jobs self !! job_name with
  | None => raise (ValueError (JobNotFound job_name))
  | Some _ =>
      provider ← assignment_of job_name;
      try_reraise
        (match provider with
         | CHAINLINK => on_chainlink (remove_job job_name)
         | GELATO => on_gelato (cancel_task job_name)
         | AUTO => mret tt
         end;;
         on_orchestrator
           (modify (set_jobs (alter (aj_set_active false) job_name)));;
         on_orchestrator (modify (log (InfoCancelled job_name))))
        (λ e s, (log (ErrorCancel job_name e) s.1, s.2))
  end.


(** *** Metrics collection *)

(** One value of the dictionary [ChainlinkKeeperManager.get_job_status]
    returns. *)
Record KeeperStatus := {
  ks_active : bool;
  ks_last_execution : option string;
  ks_contract_address : string;
  ks_function_name : string;
  ks_frequency : Z
}.

(** One value of [summary["tasks"]]; [None] is an absent key. *)
Record TaskInfo := {
  ti_active : bool;
  ti_task_id : option string;
  ti_created_at : option string;
  ti_last_execution : option string;
  ti_execution_count : option Z;
  ti_success_rate : option Q
}.

(** The dictionary [GelatoManager.get_task_summary] returns. *)
Record TaskSummary := {
  sm_total_tasks : Z;
  sm_active_tasks : Z;
  sm_total_executions : Z;
  sm_successful_executions : Z;
  sm_tasks : option (list (string * TaskInfo))
}.

Definition em_set_total (v : Z) (m : ExecutionMetrics) : ExecutionMetrics :=
  {| total_executions := v;
     successful_executions := successful_executions m;
     failed_executions := failed_executions m;
     total_gas_used := total_gas_used m;
     total_fees_paid := total_fees_paid m;
     average_execution_time := average_execution_time m;
     last_execution_time := last_execution_time m |}.

Definition em_set_successful (v : Z) (m : ExecutionMetrics)
  : ExecutionMetrics :=
  {| total_executions := total_executions m;
     successful_executions := v;
     failed_executions := failed_executions m;
     total_gas_used := total_gas_used m;
     total_fees_paid := total_fees_paid m;
     average_execution_time := average_execution_time m;
     last_execution_time := last_execution_time m |}.

Definition em_set_failed (v : Z) (m : ExecutionMetrics) : ExecutionMetrics :=
  {| total_executions := total_executions m;
     successful_executions := successful_executions m;
     failed_executions := v;
     total_gas_used := total_gas_used m;
     total_fees_paid := total_fees_paid m;
     average_execution_time := average_execution_time m;
     last_execution_time := last_execution_time m |}.

Definition em_set_last (d : datetime) (m : ExecutionMetrics)
  : ExecutionMetrics :=
  {| total_executions := total_executions m;
     successful_executions := successful_executions m;
     failed_executions := failed_executions m;
     total_gas_used := total_gas_used m;
     total_fees_paid := total_fees_paid m;
     average_execution_time := average_execution_time m;
     last_execution_time := Some d |}.

(** An assignment to a field of the object [self.metrics[job_name]]. *)
Definition assign (job_name : string) (f : ExecutionMetrics → ExecutionMetrics)
  : Py AutomationOrchestrator unit :=
  modify (set_metrics (alter f job_name)).

Definition _update_metrics_from_chainlink
    (status : list (string * KeeperStatus)) : Py AutomationOrchestrator unit :=
  for_each status (λ '(job_name, job_status),
    self ← get;
    match metrics self !! job_name with
    | None => mret tt
    | Some m =>
        if truthy (ks_last_execution job_status)
        then
          last_exec ← parse_iso (default "" (ks_last_execution job_status));
          if newer_than (last_execution_time m) last_exec
          then
            assign job_name (em_set_last last_exec);;
            assign job_name
              (λ m, em_set_total (total_executions m + 1) m);;
            assign job_name
              (λ m, em_set_successful (successful_executions m + 1) m)
          else mret tt
        else mret tt
    end).

Definition _update_metrics_from_gelato (summary : TaskSummary)
  : Py AutomationOrchestrator unit :=
  for_each (default [] (sm_tasks summary)) (λ '(job_name, task_info),
    self ← get;
    match metrics self !! job_name with
    | None => mret tt
    | Some m =>
        let execution_count := default 0 (ti_execution_count task_info) in
        (if bool_decide (execution_count > total_executions m)
         then
           let new_executions := execution_count - total_executions m in
           assign job_name (em_set_total execution_count);;
           let success_rate := default 1%Q (ti_success_rate task_info) in
           assign job_name
             (em_set_successful
                (py_int (inject_Z execution_count * success_rate)));;
           assign job_name
             (λ m, em_set_failed
                     (execution_count - successful_executions m) m)
         else mret tt);;
        if truthy (ti_last_execution task_info)
        then
          t ← parse_iso (default "" (ti_last_execution task_info));
          assign job_name (em_set_last t)
        else mret tt
    end).


(** *** Status and performance reports *)

(** [a / b], which raises on a zero divisor. *)
Definition div {S} (a b : Z) : Py S Q :=
  if bool_decide (b = 0) then raise ZeroDivisionError else mret (truediv a b).

(** [sum(f(m) for m in d.values())] *)
Definition sum_values {V} (f : V → Z) (d : gmap string V) : Z :=
  foldr (λ kv acc, f kv.2 + acc) 0 (map_to_list d).

(** A dictionary built by a loop or a comprehension whose body may raise. *)
Fixpoint build {S A V} (body : A → Py S (string * V)) (xs : list A)
  : Py S (gmap string V) :=
  match xs with
  | [] => mret ∅
  | x :: xs' => kv ← body x; d ← build body xs'; mret (<[kv.1 := kv.2]> d)
  end.

Record MetricsStatus := {
  ms_total_executions : Z;
  ms_successful_executions : Z;
  ms_failed_executions : Z;
  ms_success_rate : Q;
  ms_total_gas_used : Z;
  ms_total_fees_paid : Z;
  ms_last_execution : option string
}.

Record JobStatus := {
  js_active : bool;
  js_provider : string;
  js_target_contract : string;
  js_function_name : string;
  js_frequency : Z;
  js_priority : Z;
  js_created_at : option string;
  js_metrics : MetricsStatus
}.

Record Status := {
  st_total_jobs : Z;
  st_active_jobs : Z;
  st_provider_distribution : gmap string Z;
  st_jobs : gmap string JobStatus
}.

Definition get_job_status : Py AutomationOrchestrator Status :=
  self ← get;
  let provider_distribution :=
    foldl (λ d kv, <[value kv.2 := default 0 (d !! value kv.2) + 1]> d)
          ∅ (map_to_list (job_assignments self)) in
  job_details ← build (λ '(job_name, job),
      let m := default ExecutionMetrics_default (metrics self !! job_name) in
      provider ← match job_assignments self !! job_name with
                 | Some p => mret p
                 | None => raise (KeyError job_name)
                 end;
      success_rate ← (if bool_decide (total_executions m > 0)
                      then div (successful_executions m) (total_executions m)
                      else mret 0%Q);
      mret (job_name,
            {| js_active := aj_active job;
               js_provider := value provider;
               js_target_contract := aj_target_contract job;
               js_function_name := aj_function_name job;
               js_frequency := aj_frequency job;
               js_priority := aj_priority job;
               js_created_at := isoformat <$> aj_created_at job;
               js_metrics :=
                 {| ms_total_executions := total_executions m;
                    ms_successful_executions := successful_executions m;
                    ms_failed_executions := failed_executions m;
                    ms_success_rate := success_rate;
                    ms_total_gas_used := total_gas_used m;
                    ms_total_fees_paid := total_fees_paid m;
                    ms_last_execution :=
                      isoformat <$> last_execution_time m |} |}))
    (map_to_list (jobs self));
  mret {| st_total_jobs := Z.of_nat (size (jobs self));
          st_active_jobs :=
            sum_values (λ job, if aj_active job then 1 else 0) (jobs self);
          st_provider_distribution := provider_distribution;
          st_jobs := job_details |}.

Record OverallMetrics := {
  om_total_executions : Z;
  om_overall_success_rate : Q;
  om_total_gas_used : Z;
  om_total_fees_paid : Z;
  om_average_gas_per_execution : Q
}.

Record ProviderPerformance := {
  pp_job_count : Z;
  pp_estimated_cost_efficiency : Z
}.

Record JobMetrics := {
  jm_executions : Z;
  jm_success_rate : Q;
  jm_gas_efficiency : Q
}.

Record PerformanceReport := {
  pr_overall_metrics : OverallMetrics;
  pr_provider_performance : gmap string ProviderPerformance;
  pr_job_metrics : gmap string JobMetrics
}.

Definition get_performance_report : Py AutomationOrchestrator PerformanceReport :=
  self ← get;
  let total_executions_ := sum_values total_executions (metrics self) in
  let total_successful := sum_values successful_executions (metrics self) in
  let total_gas := sum_values total_gas_used (metrics self) in
  let total_fees := sum_values total_fees_paid (metrics self) in
  overall_success_rate ← (if bool_decide (total_executions_ > 0)
                          then div total_successful total_executions_
                          else mret 0%Q);
  average_gas ← (if bool_decide (total_executions_ > 0)
                 then div total_gas total_executions_
                 else mret 0%Q);
  provider_performance ← build (λ provider,
      cost ← subscript provider_costs provider (value provider);
      mret (value provider,
            {| pp_job_count :=
                 sum_values (λ p, if bool_decide (p = provider) then 1 else 0)
                            (job_assignments self);
               pp_estimated_cost_efficiency := cost |}))
    (filter (λ provider, provider ∈ provider_costs.*1) [CHAINLINK; GELATO]);
  job_metrics ← build (λ '(job_name, m),
      success_rate ← (if bool_decide (total_executions m > 0)
                      then div (successful_executions m) (total_executions m)
                      else mret 0%Q);
      gas_efficiency ← (if bool_decide (total_executions m > 0)
                        then div (total_gas_used m) (total_executions m)
                        else mret 0%Q);
      mret (job_name,
            {| jm_executions := total_executions m;
               jm_success_rate := success_rate;
               jm_gas_efficiency := gas_efficiency |}))
    (map_to_list (metrics self));
  mret {| pr_overall_metrics :=
            {| om_total_executions := total_executions_;
               om_overall_success_rate := overall_success_rate;
               om_total_gas_used := total_gas;
               om_total_fees_paid := total_fees;
               om_average_gas_per_execution := average_gas |};
          pr_provider_performance := provider_performance;
          pr_job_metrics := job_metrics |}.


(** *** Runs of the orchestrator *)

(** The two metrics-update steps of a polling cycle of [_collect_metrics]. *)
Inductive metrics_update :=
| FromChainlink (status : list (string * KeeperStatus))
| FromGelato (summary : TaskSummary).

Definition apply_update (u : metrics_update) : Py AutomationOrchestrator unit :=
  match u with
  | FromChainlink status => _update_metrics_from_chainlink status
  | FromGelato summary => _update_metrics_from_gelato summary
  end.

(** The state after a sequence of update steps; a step that raises leaves
    the mutations it made, as the [except] of [_collect_metrics] does. *)
Definition apply_updates (us : list metrics_update)
    (self : AutomationOrchestrator) : AutomationOrchestrator :=
  foldl (λ o u, final_state (apply_update u o)) self us.

Inductive operation :=
| AddJob (job : AutomationJob)
| DeployJob (job_name : string)
| CancelJob (job_name : string)
| Collect (u : metrics_update).

Definition run (op : operation) : Py System unit :=
  match op with
  | AddJob job => on_orchestrator (add_job job)
  | DeployJob job_name => deploy_job job_name
  | CancelJob job_name => cancel_job job_name
  | Collect u => on_orchestrator (apply_update u)
  end.

(** What the adapters' own monitoring loops and the outside world may change
    between two operations: anything but the registry, the assignments and
    the metrics. *)
Definition background (s s' : System) : Prop :=
  jobs s'.1 = jobs s.1
  ∧ job_assignments s'.1 = job_assignments s.1
  ∧ metrics s'.1 = metrics s.1.

Inductive reachable : System → Prop :=
| reachable_init km gm w : reachable (init km gm, w)
| reachable_run op s : reachable s → reachable (final_state (run op s))
| reachable_background s s' :
    reachable s → background s s' → reachable s'.

End Embedding.

(** ** Stand-ins and data for the examples *)

(** [isoformat] on the datetimes of [fromisoformat_basic]. *)
Definition isoformat_basic (t : datetime) : string :=
  let s := pretty t in
  String.substring 0 4 s +:+ "-" +:+ String.substring 4 2 s +:+ "-"
  +:+ String.substring 6 2 s +:+ "T" +:+ String.substring 8 2 s +:+ ":"
  +:+ String.substring 10 2 s +:+ ":" +:+ String.substring 12 2 s.

(** The four selector bytes are not computed: the selector text stands for
    them. *)
Definition keccak4_text (s : string) : string := s.

Definition example_keeper : ChainlinkKeeperManager :=
  {| km_account := "0xA11CE";
     keeper_registry_address := "0x02777053d6764996e594c3E88AF1D58D5363a2e6";
     link_token_address := "0x514910771AF9Ca656af840dff83E8264EcF986CA";
     km_jobs := ∅ |}.

Definition example_relay : GelatoManager :=
  {| gm_account := "0xA11CE";
     gelato_ops_address := "0xB3f5503f93d5Ef84b06993a1975B9D21B962892F";
     tasks := ∅; executions := [] |}.

Definition example_world : World :=
  {| online := true; link_balance := 7 * 10 ^ 18; gas_price := 30;
     transaction_count := 0; sent := []; next_upkeep_id := 42;
     now := 20240101120000 |}.

(** [rebalance_job] of [main]. *)
Definition vault_rebalance : AutomationJob :=
  {| aj_name := "vault_rebalance"; aj_target_contract := "0x...";
     aj_function_name := "rebalance"; aj_check_data := "";
     aj_gas_limit := 500000; aj_frequency := 86400; aj_max_fee := 10 ^ 17;
     aj_priority := 2; aj_provider := AUTO; aj_active := true;
     aj_created_at := None; aj_last_execution := None |}.

(** A high-priority job more frequent than hourly. *)
Definition quick_harvest : AutomationJob :=
  {| aj_name := "yield_harvest"; aj_target_contract := "0x...";
     aj_function_name := "harvestYield"; aj_check_data := "";
     aj_gas_limit := 300000; aj_frequency := 1800; aj_max_fee := 5 * 10 ^ 16;
     aj_priority := 3; aj_provider := AUTO; aj_active := true;
     aj_created_at := None; aj_last_execution := None |}.


(** [vault_rebalance], requested on the keeper adapter. *)
Definition keeper_rebalance : AutomationJob :=
  aj_set_provider CHAINLINK vault_rebalance.


Definition executed_once : list (string * KeeperStatus) :=
  [("vault_rebalance",
    {| ks_active := true; ks_last_execution := Some "2024-01-01T00:00:05";
       ks_contract_address := "0x..."; ks_function_name := "rebalance";
       ks_frequency := 86400 |})].


(** A relay summary reporting three executions, two of them successful. *)
Definition three_executions : TaskSummary :=
  {| sm_total_tasks := 1; sm_active_tasks := 1; sm_total_executions := 3;
     sm_successful_executions := 2;
     sm_tasks :=
       Some [("vault_rebalance",
              {| ti_active := true; ti_task_id := Some "task_1";
                 ti_created_at := None;
                 ti_last_execution := Some "2024-01-01T00:10:00";
                 ti_execution_count := Some 3;
                 ti_success_rate := Some (2 # 3) |})] |}.

(** The system after [keeper_rebalance] was added and one execution of it
    was collected. *)
Definition after_one_execution : System :=
  final_state
    (run fromisoformat_basic keccak4_text (Collect (FromChainlink executed_once))
       (final_state
          (run fromisoformat_basic keccak4_text (AddJob keeper_rebalance)
             (init (Some example_keeper) (Some example_relay), example_world)))).

(** ** The selector's score as the specification words it

    [score = max(0, 100 − cost_per_gas_unit × gas_budget / 1000)
             + base_reliability + feature_bonus]. *)




(** ** Relations used to state the invariants *)

(** How a metrics record may differ after a metrics-update step. *)
Definition metrics_step (m m' : ExecutionMetrics) : Prop :=
  total_gas_used m' = total_gas_used m
  ∧ total_fees_paid m' = total_fees_paid m
  ∧ total_executions m ≤ total_executions m'
  ∧ (successful_executions m + failed_executions m ≤ total_executions m →
     successful_executions m' + failed_executions m' ≤ total_executions m').

(** How the orchestrator may differ after a metrics-update step: only in the
    metrics of the jobs that have some, each by a [metrics_step]. *)
Definition metrics_evolve (o o' : AutomationOrchestrator) : Prop :=
  chainlink_manager o' = chainlink_manager o
  ∧ gelato_manager o' = gelato_manager o
  ∧ jobs o' = jobs o
  ∧ job_assignments o' = job_assignments o
  ∧ logged o' = logged o
  ∧ ∀ name,
      match metrics o !! name with
      | None => metrics o' !! name = None
      | Some m => ∃ m', metrics o' !! name = Some m' ∧ metrics_step m m'
      end.


(** What every metrics record of a reachable state satisfies. *)
Definition metrics_ok (m : ExecutionMetrics) : Prop :=
  successful_executions m + failed_executions m ≤ total_executions m
  ∧ total_gas_used m = 0
  ∧ total_fees_paid m = 0.

Definition registry_ok (o : AutomationOrchestrator) : Prop :=
  (∀ name m, metrics o !! name = Some m → metrics_ok m)
  ∧ (∀ name, is_Some (jobs o !! name) → is_Some (job_assignments o !! name)).

(** Deployment and cancellation leave the metrics, the assignments and the
    set of job names as they are. *)
Definition same_registry (s s' : System) : Prop :=
  metrics s'.1 = metrics s.1
  ∧ job_assignments s'.1 = job_assignments s.1
  ∧ ∀ name, is_Some (jobs s'.1 !! name) ↔ is_Some (jobs s.1 !! name).

Definition keeps_registry {A} (m : Py System A) : Prop :=
  ∀ s, same_registry s (final_state (m s)).


(** ** The reports as functions of the state

    What [get_job_status] and [get_performance_report] return when no
    exception interrupts them. *)

(** [a / total if total > 0 else 0] *)
Definition guarded_ratio (a total : Z) : Q :=
  if bool_decide (total > 0) then truediv a total else 0%Q.

Definition metrics_status_of (isoformat : datetime → string)
    (m : ExecutionMetrics) : MetricsStatus :=
  {| ms_total_executions := total_executions m;
     ms_successful_executions := successful_executions m;
     ms_failed_executions := failed_executions m;
     ms_success_rate :=
       guarded_ratio (successful_executions m) (total_executions m);
     ms_total_gas_used := total_gas_used m;
     ms_total_fees_paid := total_fees_paid m;
     ms_last_execution := isoformat <$> last_execution_time m |}.

Definition job_status_of (isoformat : datetime → string)
    (o : AutomationOrchestrator) (job_name : string) (job : AutomationJob)
    (provider : AutomationProvider) : JobStatus :=
  {| js_active := aj_active job;
     js_provider := value provider;
     js_target_contract := aj_target_contract job;
     js_function_name := aj_function_name job;
     js_frequency := aj_frequency job;
     js_priority := aj_priority job;
     js_created_at := isoformat <$> aj_created_at job;
     js_metrics :=
       metrics_status_of isoformat
         (default ExecutionMetrics_default (metrics o !! job_name)) |}.

Definition job_metrics_of (m : ExecutionMetrics) : JobMetrics :=
  {| jm_executions := total_executions m;
     jm_success_rate :=
       guarded_ratio (successful_executions m) (total_executions m);
     jm_gas_efficiency :=
       guarded_ratio (total_gas_used m) (total_executions m) |}.

Definition overall_metrics_of (o : AutomationOrchestrator) : OverallMetrics :=
  let total := sum_values total_executions (metrics o) in
  {| om_total_executions := total;
     om_overall_success_rate :=
       guarded_ratio (sum_values successful_executions (metrics o)) total;
     om_total_gas_used := sum_values total_gas_used (metrics o);
     om_total_fees_paid := sum_values total_fees_paid (metrics o);
     om_average_gas_per_execution :=
       guarded_ratio (sum_values total_gas_used (metrics o)) total |}.

(** The registry after a job has been stored under its name. *)
Definition stored (job : AutomationJob) (self : AutomationOrchestrator)
  : AutomationOrchestrator :=
  log (InfoAdded (aj_name job) (aj_provider job))
    (set_job_assignments (insert (aj_name job) (aj_provider job))
       (set_jobs (insert (aj_name job) job) self)).


(** ** Words of the claims about [_process_task_status] *)

(** The execution record built from a history entry. *)
Definition recorded (task_id : option string) (et : ExecutionEntry * datetime)
  : TaskExecution :=
  {| te_task_id := task_id;
     te_execution_time := et.2;
     te_gas_used := default 0 (ee_gasUsed et.1);
     te_fee_paid := default 0 (ee_feePaid et.1);
     te_success := default false (ee_success et.1);
     te_error_message := ee_error et.1 |}.

(** The history entries strictly newer than the last-seen timestamp. *)
Definition newer_entries (last : option datetime)
    (h : list (ExecutionEntry * datetime)) : list (ExecutionEntry * datetime) :=
  filter (λ et, newer_than last et.2 = true) h.

(** One entry per timestamp of a history in time order: an entry is dropped
    when the entry before it carries the same timestamp. *)
Fixpoint first_of_each (prev : option datetime)
    (h : list (ExecutionEntry * datetime)) : list (ExecutionEntry * datetime) :=
  match h with
  | [] => []
  | et :: h' =>
      if bool_decide (prev = Some et.2)
      then first_of_each (Some et.2) h'
      else et :: first_of_each (Some et.2) h'
  end.

(** The later of two optional timestamps. *)
Definition later (a b : option datetime) : option datetime :=
  match a, b with
  | Some x, Some y => Some (Z.max x y)
  | Some x, None => Some x
  | None, b => b
  end.

(** The entries the loop records when it starts with last-seen [last], and
    the last-seen timestamp it ends with. *)
Fixpoint kept (last : option datetime) (h : list (ExecutionEntry * datetime))
  : list (ExecutionEntry * datetime) :=
  match h with
  | [] => []
  | et :: h' =>
      if newer_than last et.2 then et :: kept (Some et.2) h' else kept last h'
  end.

Fixpoint seen (last : option datetime) (h : list (ExecutionEntry * datetime))
  : option datetime :=
  match h with
  | [] => last
  | et :: h' => if newer_than last et.2 then seen (Some et.2) h' else seen last h'
  end.

Definition gt_with_last (last : option datetime) (t : GelatoTask) : GelatoTask :=
  {| gt_name := gt_name t; gt_target_contract := gt_target_contract t;
     gt_function_selector := gt_function_selector t;
     gt_resolver_contract := gt_resolver_contract t;
     gt_resolver_data := gt_resolver_data t; gt_interval := gt_interval t;
     gt_max_fee := gt_max_fee t; gt_active := gt_active t;
     gt_task_id := gt_task_id t; gt_created_at := gt_created_at t;
     gt_last_execution := last |}.

(** A deployed relay task that has not been seen executing yet. *)
Definition harvest_task : GelatoTask :=
  {| gt_name := "yield_harvest"; gt_target_contract := "0x...";
     gt_function_selector := "harvestYield()"; gt_resolver_contract := "0x...";
     gt_resolver_data := ""; gt_interval := 1800; gt_max_fee := 5 * 10 ^ 16;
     gt_active := true; gt_task_id := Some "task_20240101120000";
     gt_created_at := Some 20240101120000; gt_last_execution := None |}.

(** Two executions the relay reports under one timestamp. *)
Definition tie_history : list (ExecutionEntry * datetime) :=
  [({| ee_timestamp := Some "2024-01-01T12:30:00"; ee_gasUsed := Some 21000;
       ee_feePaid := Some 5; ee_success := Some true; ee_error := None |},
    20240101123000);
   ({| ee_timestamp := Some "2024-01-01T12:30:00"; ee_gasUsed := Some 40000;
       ee_feePaid := Some 9; ee_success := Some false;
       ee_error := Some "reverted" |},
    20240101123000)].

(** Three executions at three instants. *)
Definition plain_history : list (ExecutionEntry * datetime) :=
  [({| ee_timestamp := Some "2024-01-01T12:30:00"; ee_gasUsed := Some 21000;
       ee_feePaid := Some 5; ee_success := Some true; ee_error := None |},
    20240101123000);
   ({| ee_timestamp := Some "2024-01-01T13:00:00"; ee_gasUsed := Some 21000;
       ee_feePaid := Some 5; ee_success := Some true; ee_error := None |},
    20240101130000);
   ({| ee_timestamp := Some "2024-01-01T13:30:00"; ee_gasUsed := Some 40000;
       ee_feePaid := Some 9; ee_success := Some false;
       ee_error := Some "reverted" |},
    20240101133000)].


(** [quick_harvest], requested on the relay adapter. *)
Definition relay_harvest : AutomationJob :=
  aj_set_provider GELATO quick_harvest.



(** ** Teardown, status feeds and one turn of each monitoring loop *)

(** [try: m except Exception as e: h e], the exception not raised again. *)
Definition try_except {S} (m : Py S unit) (h : exn → S → S) : Py S unit :=
  λ s, match m s with
       | Return _ s' => Return tt s'
       | Raise e s' => Return tt (h e s')
       end.

(** [GelatoManager.remove_task] *)
Definition remove_task (task_name : string) (self : GelatoManager)
  : GelatoManager :=
  if bool_decide (is_Some (tasks self !! task_name))
  then gm_set_tasks (delete task_name) self
  else self.

(** [GelatoManager.cleanup]: the state is the manager and the world. *)
Definition gelato_cleanup : Py (GelatoManager * World) unit :=
  '(self, _) ← get;
  for_each (map_to_list (tasks self)).*1 (λ task_name,
    '(self, _) ← get;
    match tasks self !! task_name with
    | Some task =>
        if gt_active task && truthy (gt_task_id task)
        then try_except (cancel_task task_name) log_only
        else mret tt
    | None => mret tt
    end).

(** [ChainlinkKeeperManager.cleanup]: [pass]. *)
Definition keeper_cleanup (self : ChainlinkKeeperManager)
  : ChainlinkKeeperManager := self.

(** [AutomationOrchestrator.cleanup].  Its opening [logger.info] line carries
    no data and is not recorded; the [logger.error] of its handler has the
    text of the one in [cancel_job]. *)
Definition cleanup : Py System unit :=
  '(self, _) ← get;
  for_each (map_to_list (jobs self)).*1 (λ job_name,
    '(self, _) ← get;
    match jobs self !! job_name with
    | Some job =>
        if aj_active job
        then try_except (cancel_job job_name)
               (λ e s, (log (ErrorCancel job_name e) s.1, s.2))
        else mret tt
    | None => mret tt
    end);;
  '(self, _) ← get;
  (if chainlink_manager self is Some _
   then on_chainlink keeper_cleanup else mret tt);;
  '(self, _) ← get;
  (if gelato_manager self is Some _
   then on_gelato gelato_cleanup else mret tt).

(** [for x in xs: ys.append(body(x))] with a body that may raise. *)
Fixpoint collect {S A B} (body : A → Py S B) (xs : list A) : Py S (list B) :=
  match xs with
  | [] => mret []
  | x :: xs' => y ← body x; ys ← collect body xs'; mret (y :: ys)
  end.

(** [len([e for e in self.executions if e.task_id == task_id])] and the
    number of those that succeeded. *)
Definition executions_of (task_id : option string) (self : GelatoManager)
  : list TaskExecution :=
  filter (λ e, te_task_id e = task_id) (executions self).

Definition successes (es : list TaskExecution) : Z :=
  Z.of_nat (length (filter (λ e, te_success e = true) es)).

Section Feeds.

Variable fromisoformat : string → option datetime.
Variable isoformat : datetime → string.

(** [GelatoManager.get_task_summary] *)
Definition get_task_summary : Py GelatoManager TaskSummary :=
  self ← get;
  task_infos ← collect (λ '(task_name, task),
      let task_executions := executions_of (gt_task_id task) self in
      success_rate ← (if bool_decide (task_executions ≠ [])
                      then div (successes task_executions)
                               (Z.of_nat (length task_executions))
                      else mret 0%Q);
      mret (task_name,
            {| ti_active := gt_active task;
               ti_task_id := gt_task_id task;
               ti_created_at := isoformat <$> gt_created_at task;
               ti_last_execution := isoformat <$> gt_last_execution task;
               ti_execution_count := Some (Z.of_nat (length task_executions));
               ti_success_rate := Some success_rate |}))
    (map_to_list (tasks self));
  mret {| sm_total_tasks := Z.of_nat (size (tasks self));
          sm_active_tasks :=
            sum_values (λ task, if gt_active task then 1 else 0) (tasks self);
          sm_total_executions := Z.of_nat (length (executions self));
          sm_successful_executions := successes (executions self);
          sm_tasks := Some task_infos |}.



(** One turn of the loop of [monitor_tasks], the sleep left out.
    [respond task_id] is what [get_task_status] obtains from the relay:
    [None] when the request raises (no answer, or an answer other than 200). *)
Definition monitor_tasks_once (respond : string → option TaskStatus)
  : Py GelatoManager unit :=
  try_except
    (self ← get;
     for_each (map_to_list (tasks self)).*1 (λ task_name,
       self ← get;
       match tasks self !! task_name with
       | Some task =>
           if negb (gt_active task) || negb (truthy (gt_task_id task))
           then mret tt
           else
             status ← match respond (default "" (gt_task_id task)) with
                      | Some status => mret status
                      | None => raise ConnectionError
                      end;
             zoom (λ self, (task, executions self))
                  (λ t self,
                     {| gm_account := gm_account self;
                        gelato_ops_address := gelato_ops_address self;
                        tasks := <[task_name := t.1]> (tasks self);
                        executions := t.2 |})
                  (_process_task_status fromisoformat status)
       | None => mret tt
       end))
    log_only.

End Feeds.


(** ** Relations used to state the further invariants *)

(** A computation whose final state, returned or raised, is related to its
    initial state. *)
Definition preserves {S A} (R : relation S) (m : Py S A) : Prop :=
  ∀ s, R s (final_state (m s)).

(** Two records of one job: all but [active] and [created_at] agree. *)
Definition same_identity (j j' : AutomationJob) : Prop :=
  aj_name j' = aj_name j
  ∧ aj_target_contract j' = aj_target_contract j
  ∧ aj_function_name j' = aj_function_name j
  ∧ aj_check_data j' = aj_check_data j
  ∧ aj_gas_limit j' = aj_gas_limit j
  ∧ aj_frequency j' = aj_frequency j
  ∧ aj_max_fee j' = aj_max_fee j
  ∧ aj_priority j' = aj_priority j
  ∧ aj_provider j' = aj_provider j
  ∧ aj_last_execution j' = aj_last_execution j.

(** What deployment, cancellation and teardown may change of the
    orchestrator: the adapters, the [active] and [created_at] of jobs, and the
    log, which only grows. *)
Definition jobs_evolve (s s' : System) : Prop :=
  metrics s'.1 = metrics s.1
  ∧ job_assignments s'.1 = job_assignments s.1
  ∧ (∃ added, logged s'.1 = logged s.1 ++ added)
  ∧ ∀ name,
      match jobs s.1 !! name with
      | None => jobs s'.1 !! name = None
      | Some j => ∃ j', jobs s'.1 !! name = Some j' ∧ same_identity j j'
      end.

(** Every job is filed under its own name, assigned to the provider its
    record names, which is never "auto", and has metrics; nothing is assigned
    that is not a job. *)
Definition registry_consistent (o : AutomationOrchestrator) : Prop :=
  (∀ name j, jobs o !! name = Some j →
     aj_name j = name
     ∧ job_assignments o !! name = Some (aj_provider j)
     ∧ aj_provider j ≠ AUTO
     ∧ is_Some (metrics o !! name))
  ∧ (∀ name, is_Some (job_assignments o !! name) → is_Some (jobs o !! name)).




(** [keeper_rebalance] on a world whose account holds less than the bond. *)
Definition poor_world : World :=
  {| online := true; link_balance := 10 ^ 18; gas_price := 30;
     transaction_count := 0; sent := []; next_upkeep_id := 42;
     now := 20240101120000 |}.

Definition keeper_registered : AutomationOrchestrator :=
  final_state (add_job keeper_rebalance
                 (init (Some example_keeper) (Some example_relay))).

Definition relay_registered : AutomationOrchestrator :=
  final_state (add_job relay_harvest
                 (init (Some example_keeper) (Some example_relay))).


(** ** The bodies of the two update loops *)

(** The body of the loop of [_update_metrics_from_chainlink]. *)
Definition chainlink_turn (fromisoformat : string → option datetime)
    (item : string * KeeperStatus) : Py AutomationOrchestrator unit :=
  let '(job_name, job_status) := item in
  self ← get;
  match metrics self !! job_name with
  | None => mret tt
  | Some m =>
      if truthy (ks_last_execution job_status)
      then
        last_exec ← parse_iso fromisoformat
                      (default "" (ks_last_execution job_status));
        if newer_than (last_execution_time m) last_exec
        then
          assign job_name (em_set_last last_exec);;
          assign job_name
            (λ m, em_set_total (total_executions m + 1) m);;
          assign job_name
            (λ m, em_set_successful (successful_executions m + 1) m)
        else mret tt
      else mret tt
  end.

(** One more execution, counted as a success at time [d]. *)
Definition counted_once (d : datetime) (m : ExecutionMetrics) : ExecutionMetrics :=
  {| total_executions := total_executions m + 1;
     successful_executions := successful_executions m + 1;
     failed_executions := failed_executions m;
     total_gas_used := total_gas_used m;
     total_fees_paid := total_fees_paid m;
     average_execution_time := average_execution_time m;
     last_execution_time := Some d |}.

(** The order of optional timestamps, [None] before all. *)
Definition not_after (a b : option datetime) : Prop :=
  match a, b with
  | None, _ => True
  | Some _, None => False
  | Some x, Some y => x ≤ y
  end.


(** The metrics records of [o'] are those of [o] with last-execution times
    that are equal or later. *)
Definition metrics_later (o o' : AutomationOrchestrator) : Prop :=
  ∀ name,
    match metrics o !! name with
    | None => metrics o' !! name = None
    | Some m =>
        ∃ m', metrics o' !! name = Some m'
              ∧ not_after (last_execution_time m) (last_execution_time m')
    end.


(** The body of the loop of [_update_metrics_from_gelato]. *)
Definition gelato_turn (fromisoformat : string → option datetime)
    (item : string * TaskInfo) : Py AutomationOrchestrator unit :=
  let '(job_name, task_info) := item in
  self ← get;
  match metrics self !! job_name with
  | None => mret tt
  | Some m =>
      let execution_count := default 0 (ti_execution_count task_info) in
      (if bool_decide (execution_count > total_executions m)
       then
         let new_executions := execution_count - total_executions m in
         assign job_name (em_set_total execution_count);;
         let success_rate := default 1%Q (ti_success_rate task_info) in
         assign job_name
           (em_set_successful
              (py_int (inject_Z execution_count * success_rate)));;
         assign job_name
           (λ m, em_set_failed
                   (execution_count - successful_executions m) m)
       else mret tt);;
      if truthy (ti_last_execution task_info)
      then
        t ← parse_iso fromisoformat (default "" (ti_last_execution task_info));
        assign job_name (em_set_last t)
      else mret tt
  end.

(** The counters of a record after a summary entry reporting [count]
    executions at success rate [rate]. *)
Definition recounted (count : Z) (rate : Q) (m : ExecutionMetrics)
  : ExecutionMetrics :=
  if bool_decide (count > total_executions m)
  then {| total_executions := count;
          successful_executions := py_int (inject_Z count * rate);
          failed_executions := count - py_int (inject_Z count * rate);
          total_gas_used := total_gas_used m;
          total_fees_paid := total_fees_paid m;
          average_execution_time := average_execution_time m;
          last_execution_time := last_execution_time m |}
  else m.

(** A record after a summary entry whose timestamp, if it has one, parses. *)
Definition gelato_applied (fromisoformat : string → option datetime)
    (info : TaskInfo) (m : ExecutionMetrics) : ExecutionMetrics :=
  let m1 := recounted (default 0 (ti_execution_count info))
                      (default 1%Q (ti_success_rate info)) m in
  if truthy (ti_last_execution info)
  then match fromisoformat (default "" (ti_last_execution info)) with
       | Some t => em_set_last t m1
       | None => m1
       end
  else m1.

(** The job names a feed mentions. *)
Definition mentioned (u : metrics_update) : list string :=
  match u with
  | FromChainlink status => status.*1
  | FromGelato summary => (default [] (sm_tasks summary)).*1
  end.

(** ** What [get_task_summary] returns *)

(** The entry of [summary["tasks"]] for one task. *)
Definition task_info_of (isoformat : datetime → string) (self : GelatoManager)
    (task : GelatoTask) : TaskInfo :=
  let task_executions := executions_of (gt_task_id task) self in
  {| ti_active := gt_active task;
     ti_task_id := gt_task_id task;
     ti_created_at := isoformat <$> gt_created_at task;
     ti_last_execution := isoformat <$> gt_last_execution task;
     ti_execution_count := Some (Z.of_nat (length task_executions));
     ti_success_rate :=
       Some (guarded_ratio (successes task_executions)
                           (Z.of_nat (length task_executions))) |}.

Definition summary_of (isoformat : datetime → string) (self : GelatoManager)
  : TaskSummary :=
  {| sm_total_tasks := Z.of_nat (size (tasks self));
     sm_active_tasks :=
       sum_values (λ task, if gt_active task then 1 else 0) (tasks self);
     sm_total_executions := Z.of_nat (length (executions self));
     sm_successful_executions := successes (executions self);
     sm_tasks :=
       Some ((λ kv, (kv.1, task_info_of isoformat self kv.2))
               <$> map_to_list (tasks self)) |}.



(** The relay adapter after the three executions of [plain_history] were
    recorded for [harvest_task]. *)
Definition polled_relay : GelatoManager :=
  {| gm_account := gm_account example_relay;
     gelato_ops_address := gelato_ops_address example_relay;
     tasks := {[ "yield_harvest" :=
                   gt_with_last (Some 20240101133000) harvest_task ]};
     executions := recorded (gt_task_id harvest_task) <$> plain_history |}.


(** ** What a turn of [monitor_tasks] may change *)

(** The manager [gm'] is [gm] after some polling: the execution log has
    grown by records of active tasks that have an identifier, and every task
    is the one it was but for a last-seen timestamp that did not move back,
    and did not move at all for an inactive task or one without identifier. *)
Definition tasks_polled (gm gm' : GelatoManager) : Prop :=
  gm_account gm' = gm_account gm
  ∧ gelato_ops_address gm' = gelato_ops_address gm
  ∧ (∃ added,
       executions gm' = executions gm ++ added
       ∧ Forall (λ e, ∃ name task,
                   tasks gm !! name = Some task
                   ∧ gt_active task = true
                   ∧ truthy (gt_task_id task) = true
                   ∧ te_task_id e = gt_task_id task) added)
  ∧ ∀ name,
      match tasks gm !! name with
      | None => tasks gm' !! name = None
      | Some task =>
          ∃ last,
            tasks gm' !! name = Some (gt_with_last last task)
            ∧ not_after (gt_last_execution task) last
            ∧ (gt_active task = false ∨ truthy (gt_task_id task) = false →
               last = gt_last_execution task)
      end.




(** ** What the relay adapter's [cleanup] does to a task *)




(** * Properties *)

(** ** Provider selection *)




Lemma provider_costs_chainlink {S} (shown : string) (s : S) :
  subscript provider_costs CHAINLINK shown s = Return 20 s.
Proof. reflexivity. Qed.

Lemma provider_costs_gelato {S} (shown : string) (s : S) :
  subscript provider_costs GELATO shown s = Return 25 s.
Proof. reflexivity. Qed.




(** ** Adding jobs *)

Ltac py_unfold :=
  unfold mbind, mret, Py_bind, Py_ret, bind, ret, get, modify, raise,
    try_reraise, zoom in *.

Lemma add_job_explicit (job : AutomationJob) (self : AutomationOrchestrator) :
  aj_provider job ≠ AUTO →
  add_job job self
    = Return tt (stored job
        (set_metrics (insert (aj_name job) ExecutionMetrics_default) self)).
Proof.
  intros Hp. unfold add_job. py_unfold.
  rewrite bool_decide_eq_false_2 by exact Hp. reflexivity.
Qed.

Lemma add_job_auto (job : AutomationJob) (self : AutomationOrchestrator) :
  aj_provider job = AUTO →
  add_job job self
    = match _select_best_provider job
              (set_metrics (insert (aj_name job) ExecutionMetrics_default) self)
      with
      | Return p o => Return tt (stored (aj_set_provider p job) o)
      | Raise e o => Raise e o
      end.
Proof.
  intros Hp. unfold add_job. py_unfold.
  rewrite bool_decide_eq_true_2 by exact Hp.
  destruct (_select_best_provider _ _); reflexivity.
Qed.

(** Selection either finds no adapter and raises, leaving the state as it
    is, or returns one of the two adapters and logs it. *)
Lemma select_cases (job : AutomationJob) (self : AutomationOrchestrator) :
  (chainlink_manager self = None ∧ gelato_manager self = None
   ∧ _select_best_provider job self
     = Raise (ValueError NoProvidersAvailable) self)
  ∨ (∃ p score,
       (is_Some (chainlink_manager self) ∨ is_Some (gelato_manager self))
       ∧ p ≠ AUTO
       ∧ _select_best_provider job self
         = Return p (log (InfoSelected p (aj_name job) score) self)).
Proof.
  unfold _select_best_provider. py_unfold.
  destruct (chainlink_manager self) as [km|] eqn:Hk;
    destruct (gelato_manager self) as [gm|] eqn:Hg.
  - right. rewrite provider_costs_chainlink. cbn.
    rewrite provider_costs_gelato. cbn.
    destruct (Qle_bool _ _); eexists _, _; (split; [left; eauto|]);
      (split; [|reflexivity]); discriminate.
  - right. rewrite provider_costs_chainlink. cbn.
    eexists _, _. split; [left; eauto|]. split; [|reflexivity]. discriminate.
  - right. rewrite provider_costs_gelato. cbn.
    eexists _, _. split; [right; eauto|]. split; [|reflexivity]. discriminate.
  - left. auto.
Qed.

Section AddJob.

Variable keccak4 : string → string.

Lemma deploy_job_keeper_missing (s : System) (job_name : string)
    (job : AutomationJob) :
  jobs s.1 !! job_name = Some job →
  job_assignments s.1 !! job_name = Some CHAINLINK →
  chainlink_manager s.1 = None →
  deploy_job keccak4 job_name s
    = Raise (ValueError ChainlinkNotInitialized)
        (log (ErrorDeploy job_name (ValueError ChainlinkNotInitialized)) s.1,
         s.2).
Proof.
  destruct s as [o w]. cbn. intros Hj Ha Hk.
  unfold deploy_job, assignment_of, _deploy_chainlink_job. py_unfold. cbn.
  rewrite Hj, Ha. cbn. rewrite Hk. reflexivity.
Qed.

Lemma deploy_job_relay_missing (s : System) (job_name : string)
    (job : AutomationJob) :
  jobs s.1 !! job_name = Some job →
  job_assignments s.1 !! job_name = Some GELATO →
  gelato_manager s.1 = None →
  deploy_job keccak4 job_name s
    = Raise (ValueError GelatoNotInitialized)
        (log (ErrorDeploy job_name (ValueError GelatoNotInitialized)) s.1,
         s.2).
Proof.
  destruct s as [o w]. cbn. intros Hj Ha Hg.
  unfold deploy_job, assignment_of, _deploy_gelato_job. py_unfold. cbn.
  rewrite Hj, Ha. cbn. rewrite Hg. reflexivity.
Qed.

(** C2, amended. For every job whose requested provider is explicit,
    [add_job] stores the job and assigns that provider directly, without
    invoking the scoring (nothing but the "Added job" record is logged),
    and it succeeds whether or not that provider's adapter was
    initialized; a missing adapter is reported by [deploy_job] only,
    which raises "not initialized". *)
Theorem add_job_explicit_provider
    (job : AutomationJob) (self : AutomationOrchestrator) (w : World) :
  aj_provider job ≠ AUTO →
  ∃ self',
    add_job job self = Return tt self'
    ∧ jobs self' !! aj_name job = Some job
    ∧ job_assignments self' !! aj_name job = Some (aj_provider job)
    ∧ logged self' = logged self ++ [InfoAdded (aj_name job) (aj_provider job)]
    ∧ chainlink_manager self' = chainlink_manager self
    ∧ gelato_manager self' = gelato_manager self
    ∧ (aj_provider job = CHAINLINK → chainlink_manager self = None →
       raised (deploy_job keccak4 (aj_name job) (self', w))
         = Some (ValueError ChainlinkNotInitialized))
    ∧ (aj_provider job = GELATO → gelato_manager self = None →
       raised (deploy_job keccak4 (aj_name job) (self', w))
         = Some (ValueError GelatoNotInitialized)).
Proof.
  intros Hp. eexists. split; [apply add_job_explicit, Hp|].
  assert (Hj : jobs (stored job (set_metrics
                (insert (aj_name job) ExecutionMetrics_default) self))
               !! aj_name job = Some job) by apply lookup_insert_eq.
  assert (Ha : job_assignments (stored job (set_metrics
                (insert (aj_name job) ExecutionMetrics_default) self))
               !! aj_name job = Some (aj_provider job))
    by apply lookup_insert_eq.
  repeat split; try assumption.
  - intros Hc Hk. rewrite Hc in Ha.
    erewrite deploy_job_keeper_missing; [reflexivity|exact Hj|exact Ha|exact Hk].
  - intros Hc Hg. rewrite Hc in Ha.
    erewrite deploy_job_relay_missing; [reflexivity|exact Hj|exact Ha|exact Hg].
Qed.

End AddJob.

Lemma add_job_explicit_provider_witness :
  ∃ self',
    add_job keeper_rebalance (init None None) = Return tt self'
    ∧ job_assignments self' !! "vault_rebalance" = Some CHAINLINK
    ∧ raised (deploy_job keccak4_text "vault_rebalance" (self', example_world))
      = Some (ValueError ChainlinkNotInitialized).
Proof.
  destruct (add_job_explicit_provider keccak4_text keeper_rebalance
              (init None None) example_world)
    as (self' & Hadd & _ & Ha & _ & _ & _ & Hd & _).
  - discriminate.
  - exists self'. split; [exact Hadd|]. split; [exact Ha|].
    apply Hd; reflexivity.
Defined.

(** C2 as stated fails: with no adapter initialized, adding a job that
    explicitly requests the keeper adapter does not fail, it assigns the
    keeper. *)
Lemma add_job_uninitialized_provider_succeeds :
  chainlink_manager (init None None) = None
  ∧ aj_provider keeper_rebalance = CHAINLINK
  ∧ raised (add_job keeper_rebalance (init None None)) = None
  ∧ job_assignments (final_state (add_job keeper_rebalance (init None None)))
      !! "vault_rebalance" = Some CHAINLINK.
Proof. repeat split; vm_compute; reflexivity. Qed.





(** ** Metrics updates *)

Lemma for_each_preserves {S A} (P : S → Prop) (body : A → Py S unit)
    (xs : list A) :
  (∀ x s, P s → P (final_state (body x s))) →
  ∀ s, P s → P (final_state (for_each xs body s)).
Proof.
  intros Hbody. induction xs as [|x xs IH]; intros s Hs; [exact Hs|].
  cbn. py_unfold. specialize (Hbody x s Hs).
  destruct (body x s) as [[] s'|e s']; cbn in *; [apply IH|]; exact Hbody.
Qed.

Lemma metrics_step_refl (m : ExecutionMetrics) : metrics_step m m.
Proof. unfold metrics_step. repeat split; auto; try lia. Qed.

Lemma metrics_step_trans (a b c : ExecutionMetrics) :
  metrics_step a b → metrics_step b c → metrics_step a c.
Proof.
  unfold metrics_step. intros (?&?&?&?) (?&?&?&?).
  split; [congruence|]. split; [congruence|]. split; [lia|]. auto.
Qed.

Lemma metrics_evolve_refl (o : AutomationOrchestrator) : metrics_evolve o o.
Proof.
  unfold metrics_evolve. repeat split; auto. intros name.
  destruct (metrics o !! name) eqn:E; [|reflexivity].
  eexists. split; [reflexivity|apply metrics_step_refl].
Qed.

Lemma metrics_evolve_trans (a b c : AutomationOrchestrator) :
  metrics_evolve a b → metrics_evolve b c → metrics_evolve a c.
Proof.
  unfold metrics_evolve.
  intros (?&?&?&?&?&Hab) (?&?&?&?&?&Hbc).
  repeat split; try congruence. intros name.
  specialize (Hab name). specialize (Hbc name).
  destruct (metrics a !! name) as [ma|].
  - destruct Hab as (mb & Eb & Sab). rewrite Eb in Hbc.
    destruct Hbc as (mc & Ec & Sbc). exists mc. split; [exact Ec|].
    eapply metrics_step_trans; eassumption.
  - rewrite Hab in Hbc. exact Hbc.
Qed.

(** Replacing the record of one job by a [metrics_step] successor. *)
Lemma metrics_evolve_alter (o : AutomationOrchestrator) (job_name : string)
    (m : ExecutionMetrics) (f : ExecutionMetrics → ExecutionMetrics) :
  metrics o !! job_name = Some m →
  metrics_step m (f m) →
  metrics_evolve o (set_metrics (alter f job_name) o).
Proof.
  intros Hm Hstep. unfold metrics_evolve. cbn. repeat split; auto.
  intros name. destruct (decide (name = job_name)) as [->|Hne].
  - rewrite Hm, lookup_alter_eq, Hm. cbn. eauto.
  - rewrite lookup_alter_ne by congruence.
    destruct (metrics o !! name); [|reflexivity].
    eexists. split; [reflexivity|apply metrics_step_refl].
Qed.

Lemma set_metrics_alter_compose (o : AutomationOrchestrator)
    (job_name : string) (f g : ExecutionMetrics → ExecutionMetrics) :
  set_metrics (alter g job_name) (set_metrics (alter f job_name) o)
  = set_metrics (alter (g ∘ f) job_name) o.
Proof.
  unfold set_metrics. cbn. f_equal. apply alter_alter_eq.
Qed.

Section MetricsUpdates.

Variable fromisoformat : string → option datetime.

Lemma update_from_chainlink_evolves (status : list (string * KeeperStatus))
    (o : AutomationOrchestrator) :
  metrics_evolve o
    (final_state (_update_metrics_from_chainlink fromisoformat status o)).
Proof.
  unfold _update_metrics_from_chainlink.
  apply (for_each_preserves (metrics_evolve o)); [|apply metrics_evolve_refl].
  intros [job_name job_status] s Hs.
  eapply metrics_evolve_trans; [exact Hs|]. clear Hs.
  unfold assign, parse_iso. py_unfold.
  destruct (metrics s !! job_name) as [m|] eqn:Hm;
    [|apply metrics_evolve_refl].
  destruct (truthy _); [|apply metrics_evolve_refl].
  destruct (fromisoformat _) as [last_exec|]; [|apply metrics_evolve_refl].
  cbn. destruct (newer_than _ _); [|apply metrics_evolve_refl].
  cbn. rewrite !set_metrics_alter_compose.
  apply (metrics_evolve_alter s job_name m); [exact Hm|].
  unfold metrics_step. cbn. repeat split; lia.
Qed.

Lemma update_from_gelato_evolves (summary : TaskSummary)
    (o : AutomationOrchestrator) :
  metrics_evolve o
    (final_state (_update_metrics_from_gelato fromisoformat summary o)).
Proof.
  unfold _update_metrics_from_gelato.
  apply (for_each_preserves (metrics_evolve o)); [|apply metrics_evolve_refl].
  intros [job_name task_info] s Hs.
  eapply metrics_evolve_trans; [exact Hs|]. clear Hs.
  unfold assign, parse_iso. py_unfold.
  destruct (metrics s !! job_name) as [m|] eqn:Hm;
    [|apply metrics_evolve_refl].
  case_bool_decide as Hcount; cbn.
  - destruct (truthy _); cbn.
    + destruct (fromisoformat _) as [t|]; cbn;
        rewrite !set_metrics_alter_compose;
        (apply (metrics_evolve_alter s job_name m); [exact Hm|]);
        unfold metrics_step; cbn; repeat split; lia.
    + rewrite !set_metrics_alter_compose.
      apply (metrics_evolve_alter s job_name m); [exact Hm|].
      unfold metrics_step; cbn; repeat split; lia.
  - destruct (truthy _); cbn; [|apply metrics_evolve_refl].
    destruct (fromisoformat _) as [t|]; cbn; [|apply metrics_evolve_refl].
    apply (metrics_evolve_alter s job_name m); [exact Hm|].
    unfold metrics_step; cbn; repeat split; lia.
Qed.

End MetricsUpdates.

(** ** Operations that do not touch the metrics *)

Lemma same_registry_refl (s : System) : same_registry s s.
Proof. unfold same_registry. auto. Qed.

Lemma same_registry_trans (a b c : System) :
  same_registry a b → same_registry b c → same_registry a c.
Proof.
  unfold same_registry. intros (?&?&Hab) (?&?&Hbc).
  split; [congruence|]. split; [congruence|].
  intros name. rewrite Hbc. apply Hab.
Qed.

Lemma keeps_bind {A B} (m : Py System A) (k : A → Py System B) :
  keeps_registry m → (∀ a, keeps_registry (k a)) → keeps_registry (m ≫= k).
Proof.
  intros Hm Hk s. py_unfold. specialize (Hm s).
  destruct (m s) as [a s'|e s']; cbn in *; [|exact Hm].
  eapply same_registry_trans; [exact Hm|apply Hk].
Qed.

Lemma keeps_ret {A} (a : A) : keeps_registry (mret a).
Proof. intros s. apply same_registry_refl. Qed.

Lemma keeps_raise {A} (e : exn) : keeps_registry (raise (A := A) e).
Proof. intros s. apply same_registry_refl. Qed.

Lemma keeps_get : keeps_registry get.
Proof. intros s. apply same_registry_refl. Qed.

Lemma keeps_datetime_now : keeps_registry datetime_now.
Proof. intros s. apply same_registry_refl. Qed.

Lemma keeps_on_world {A} (m : Py World A) : keeps_registry (on_world m).
Proof.
  intros s. unfold on_world, zoom.
  destruct (m s.2); unfold same_registry; cbn; auto.
Qed.

Lemma keeps_on_gelato {A} (m : Py (GelatoManager * World) A) :
  keeps_registry (on_gelato m).
Proof.
  intros s. unfold on_gelato.
  destruct (gelato_manager s.1); [|apply same_registry_refl].
  destruct (m _); unfold same_registry; cbn; auto.
Qed.

Lemma keeps_on_chainlink (f : ChainlinkKeeperManager → ChainlinkKeeperManager) :
  keeps_registry (on_chainlink f).
Proof.
  intros s. unfold on_chainlink.
  destruct (chainlink_manager s.1); [|apply same_registry_refl].
  unfold same_registry; cbn; auto.
Qed.

Lemma keeps_alter_jobs (f : AutomationJob → AutomationJob) (job_name : string) :
  keeps_registry (on_orchestrator (modify (set_jobs (alter f job_name)))).
Proof.
  intros s. unfold same_registry. cbn. split; [reflexivity|].
  split; [reflexivity|]. intros name. apply lookup_alter_is_Some.
Qed.

Lemma keeps_log (r : log_record) :
  keeps_registry (on_orchestrator (modify (log r))).
Proof. intros s. unfold same_registry. cbn. auto. Qed.

Lemma keeps_try {A} (m : Py System A) (r : exn → log_record) :
  keeps_registry m →
  keeps_registry (try_reraise m (λ e s, (log (r e) s.1, s.2))).
Proof.
  intros Hm s. unfold try_reraise. specialize (Hm s).
  destruct (m s) as [a s'|e s']; cbn in *; [exact Hm|].
  eapply same_registry_trans; [exact Hm|]. unfold same_registry. cbn. auto.
Qed.

Lemma keeps_assignment_of (job_name : string) :
  keeps_registry (assignment_of job_name).
Proof.
  intros s. unfold assignment_of. py_unfold. destruct s as [o w]. cbn.
  destruct (job_assignments o !! job_name); apply same_registry_refl.
Qed.

Create HintDb keeps.
#[local] Hint Resolve keeps_ret keeps_raise keeps_get keeps_datetime_now
  keeps_on_world keeps_on_gelato keeps_on_chainlink keeps_alter_jobs keeps_log
  keeps_assignment_of : keeps.

Ltac keeps_step :=
  first
    [ apply keeps_bind; [|intros]
    | apply keeps_try
    | match goal with
      | |- keeps_registry (match ?x with _ => _ end) => destruct x
      | |- keeps_registry (let '(_, _) := ?x in _) => destruct x
      end
    | solve [auto with keeps] ].

Lemma keeps_cancel_job (job_name : string) : keeps_registry (cancel_job job_name).
Proof. unfold cancel_job. repeat keeps_step. Qed.

Section Deployment.

Variable keccak4 : string → string.

Lemma keeps_deploy_job (job_name : string) :
  keeps_registry (deploy_job keccak4 job_name).
Proof.
  unfold deploy_job, _deploy_chainlink_job, _deploy_gelato_job.
  repeat keeps_step.
Qed.

End Deployment.

(** ** Invariants of the reachable states *)

Lemma metrics_evolve_ok (o o' : AutomationOrchestrator) :
  metrics_evolve o o' → registry_ok o → registry_ok o'.
Proof.
  intros (_ & _ & Hj & Ha & _ & Hm) [Hok Hdom]. split.
  - intros name m' Hm'. specialize (Hm name).
    destruct (metrics o !! name) as [m|] eqn:E; [|congruence].
    destruct Hm as (m2 & E2 & Hg & Hf & _ & Hsum).
    assert (m2 = m') by congruence. subst m2.
    destruct (Hok name m E) as (? & ? & ?).
    unfold metrics_ok. split; [auto|]. split; congruence.
  - intros name. rewrite Hj, Ha. apply Hdom.
Qed.

Lemma same_registry_ok (s s' : System) :
  same_registry s s' → registry_ok s.1 → registry_ok s'.1.
Proof.
  intros (Hm & Ha & Hj) [Hok Hdom]. split.
  - intros name m. rewrite Hm. apply Hok.
  - intros name. rewrite Hj, Ha. apply Hdom.
Qed.

Lemma metrics_ok_default : metrics_ok ExecutionMetrics_default.
Proof. unfold metrics_ok. cbn. auto with lia. Qed.

(** [add_job] keeps the invariant whether it returns or raises. *)
Lemma add_job_ok (job : AutomationJob) (o : AutomationOrchestrator) :
  registry_ok o → registry_ok (final_state (add_job job o)).
Proof.
  intros [Hok Hdom].
  assert (Hreset : ∀ name m,
    <[aj_name job := ExecutionMetrics_default]> (metrics o) !! name = Some m →
    metrics_ok m).
  { intros name m. rewrite lookup_insert. case_decide.
    - intros [= <-]. apply metrics_ok_default.
    - apply Hok. }
  assert (Hstored : ∀ (p : AutomationProvider) (j : AutomationJob) name,
    is_Some (<[aj_name job := j]> (jobs o) !! name) →
    is_Some (<[aj_name job := p]> (job_assignments o) !! name)).
  { intros p j name. rewrite !lookup_insert. case_decide; eauto. }
  destruct (decide (aj_provider job = AUTO)) as [Hauto|Hexp].
  - rewrite (add_job_auto job o Hauto).
    destruct (select_cases job
                (set_metrics (insert (aj_name job) ExecutionMetrics_default) o))
      as [(_ & _ & ->)|(p & score & _ & _ & ->)]; cbn;
      (split; [exact Hreset|]); cbn; [exact Hdom|apply Hstored].
  - rewrite (add_job_explicit job o Hexp). cbn.
    split; [exact Hreset|]. cbn. apply Hstored.
Qed.

Section Reachable.

Variable fromisoformat : string → option datetime.
Variable keccak4 : string → string.

Lemma apply_update_evolves (u : metrics_update) (o : AutomationOrchestrator) :
  metrics_evolve o (final_state (apply_update fromisoformat u o)).
Proof.
  destruct u; [apply update_from_chainlink_evolves
              |apply update_from_gelato_evolves].
Qed.

Lemma apply_updates_evolves (us : list metrics_update)
    (o : AutomationOrchestrator) :
  metrics_evolve o (apply_updates fromisoformat us o).
Proof.
  revert o. induction us as [|u us IH]; intros o; [apply metrics_evolve_refl|].
  cbn. eapply metrics_evolve_trans; [apply apply_update_evolves|apply IH].
Qed.

Lemma on_orchestrator_final {A} (m : Py AutomationOrchestrator A) (s : System) :
  final_state (on_orchestrator m s) = (final_state (m s.1), s.2).
Proof. unfold on_orchestrator, zoom. destruct (m s.1); reflexivity. Qed.

Lemma run_ok (op : operation) (s : System) :
  registry_ok s.1 → registry_ok (final_state (run fromisoformat keccak4 op s)).1.
Proof.
  intros Hs. destruct op as [job|job_name|job_name|u]; cbn.
  - rewrite on_orchestrator_final. cbn. apply add_job_ok, Hs.
  - eapply same_registry_ok; [apply keeps_deploy_job|exact Hs].
  - eapply same_registry_ok; [apply keeps_cancel_job|exact Hs].
  - rewrite on_orchestrator_final. cbn.
    eapply metrics_evolve_ok; [apply apply_update_evolves|exact Hs].
Qed.

Lemma reachable_ok (s : System) :
  reachable fromisoformat keccak4 s → registry_ok s.1.
Proof.
  induction 1 as [km gm w|op s _ IH|s s' _ IH (Hj & Ha & Hm)].
  - split; cbn; intros name; [intros m|]; rewrite lookup_empty;
      [discriminate|intros [? ?]; discriminate].
  - apply run_ok, IH.
  - destruct IH as [Hok Hdom]. split.
    + intros name m. rewrite Hm. apply Hok.
    + intros name. rewrite Hj, Ha. apply Hdom.
Qed.

(** C4. For every job and every sequence of metrics-update steps, each the
    Chainlink status update or the Gelato summary update,
    [total_executions] never decreases: along the sequence each prefix
    leaves a total at least as large as the one before it. *)
Theorem total_executions_monotone
    (before after : list metrics_update) (o : AutomationOrchestrator)
    (job_name : string) (m : ExecutionMetrics) :
  metrics o !! job_name = Some m →
  ∃ m1 m2,
    metrics (apply_updates fromisoformat before o) !! job_name = Some m1
    ∧ metrics (apply_updates fromisoformat (before ++ after) o) !! job_name
      = Some m2
    ∧ total_executions m ≤ total_executions m1
    ∧ total_executions m1 ≤ total_executions m2.
Proof.
  intros Hm.
  destruct (apply_updates_evolves before o) as (_&_&_&_&_&H1).
  specialize (H1 job_name). rewrite Hm in H1.
  destruct H1 as (m1 & E1 & _ & _ & Hle1 & _).
  destruct (apply_updates_evolves after (apply_updates fromisoformat before o))
    as (_&_&_&_&_&H2).
  specialize (H2 job_name). rewrite E1 in H2.
  destruct H2 as (m2 & E2 & _ & _ & Hle2 & _).
  exists m1, m2. unfold apply_updates in *. rewrite foldl_app. auto.
Qed.

(** C7. In every reachable state (metrics zero-initialized by [add_job],
    then changed by the Chainlink and Gelato update steps only), every
    job's metrics satisfy
    [successful_executions + failed_executions <= total_executions]. *)
Theorem successful_failed_le_total (s : System) (job_name : string)
    (m : ExecutionMetrics) :
  reachable fromisoformat keccak4 s →
  metrics s.1 !! job_name = Some m →
  successful_executions m + failed_executions m ≤ total_executions m.
Proof.
  intros Hs Hm. destruct (reachable_ok s Hs) as [Hok _].
  apply (Hok job_name m Hm).
Qed.

End Reachable.

(** ** The reports *)

Lemma guarded_div {S} (a total : Z) (s : S) :
  (if bool_decide (total > 0) then div a total else mret 0%Q) s
  = Return (guarded_ratio a total) s.
Proof.
  unfold guarded_ratio, div. case_bool_decide as Hpos; [|reflexivity].
  rewrite bool_decide_eq_false_2 by lia. reflexivity.
Qed.

Lemma bind_returns {S A B} (m : Py S A) (k : A → Py S B) (a : A) (s s' : S) :
  m s = Return a s' → (m ≫= k) s = k a s'.
Proof. intros H. py_unfold. rewrite H. reflexivity. Qed.


(** A dictionary built by a body that does not raise. *)
Lemma build_returns {S A V} (body : A → Py S (string * V))
    (f : A → string * V) (xs : list A) (s : S) :
  (∀ x, x ∈ xs → body x s = Return (f x) s) →
  build body xs s = Return (list_to_map (f <$> xs)) s.
Proof.
  induction xs as [|x xs IH]; intros Hbody; [reflexivity|].
  cbn. rewrite (bind_returns _ _ (f x) s s) by (apply Hbody; left).
  rewrite (bind_returns _ _ (list_to_map (f <$> xs)) s s).
  - reflexivity.
  - apply IH. intros y Hy. apply Hbody. now right.
Qed.


(** Looking up a key in a dictionary comprehension over the items of a
    map. *)
Lemma lookup_comprehension {A V} (g : string → A → V) (m : gmap string A)
    (name : string) :
  (list_to_map ((λ kv, (kv.1, g kv.1 kv.2)) <$> map_to_list m)
     : gmap string V) !! name
  = g name <$> m !! name.
Proof.
  assert (Hkeys : ((λ kv : string * A, (kv.1, g kv.1 kv.2)) <$> map_to_list m).*1
                  = (map_to_list m).*1).
  { rewrite <- list_fmap_compose. apply list_fmap_ext. intros; reflexivity. }
  destruct (m !! name) as [a|] eqn:E; cbn.
  - apply elem_of_list_to_map_1.
    + rewrite Hkeys. apply NoDup_fst_map_to_list.
    + apply list_elem_of_fmap. exists (name, a). split; [reflexivity|].
      now apply elem_of_map_to_list.
  - apply not_elem_of_list_to_map_1. rewrite Hkeys.
    intros Hin. apply list_elem_of_fmap in Hin as ([k a] & -> & Hka).
    apply elem_of_map_to_list in Hka. cbn in E. congruence.
Qed.

(** A dictionary built by a body that returns, whatever it returns. *)
Lemma build_total {S A V} (body : A → Py S (string * V)) (xs : list A) (s : S) :
  (∀ x, x ∈ xs → ∃ kv, body x s = Return kv s) →
  ∃ d, build body xs s = Return d s.
Proof.
  induction xs as [|x xs IH]; intros Hbody; [eexists; reflexivity|].
  destruct (Hbody x) as [kv Hkv]; [left|].
  destruct IH as [d Hd]; [intros y Hy; apply Hbody; now right|].
  eexists. cbn.
  rewrite (bind_returns _ _ kv s s Hkv), (bind_returns _ _ d s s Hd).
  reflexivity.
Qed.

Lemma get_performance_report_returns (o : AutomationOrchestrator) :
  ∃ providers,
    get_performance_report o
    = Return {| pr_overall_metrics := overall_metrics_of o;
                pr_provider_performance := providers;
                pr_job_metrics :=
                  list_to_map ((λ kv, (kv.1, job_metrics_of kv.2))
                                 <$> map_to_list (metrics o)) |} o.
Proof.
  unfold get_performance_report.
  rewrite (bind_returns _ _ o o o) by reflexivity. cbv zeta.
  rewrite (bind_returns _ _ _ o o (guarded_div _ _ _)).
  rewrite (bind_returns _ _ _ o o (guarded_div _ _ _)).
  change (filter _ [CHAINLINK; GELATO]) with [CHAINLINK; GELATO].
  match goal with
  | |- context [build ?body [CHAINLINK; GELATO]] =>
      destruct (build_total body [CHAINLINK; GELATO] o) as [providers Hp]
  end.
  { intros x Hx. apply list_elem_of_In in Hx.
    destruct Hx as [<-|[<-|[]]]; eexists.
    - rewrite (bind_returns _ _ _ o o (provider_costs_chainlink _ _)).
      reflexivity.
    - rewrite (bind_returns _ _ _ o o (provider_costs_gelato _ _)).
      reflexivity. }
  exists providers.
  rewrite (bind_returns _ _ _ o o Hp).
  erewrite (bind_returns _ _ _ o o);
    [reflexivity|].
  apply build_returns. intros [job_name m] _.
  rewrite (bind_returns _ _ _ o o (guarded_div _ _ _)).
  rewrite (bind_returns _ _ _ o o (guarded_div _ _ _)).
  reflexivity.
Qed.

Section JobStatus.

Variable isoformat : datetime → string.

(** With an assignment for every job, [get_job_status] returns, and its
    job details are those of [job_status_of]. *)
Lemma get_job_status_returns (o : AutomationOrchestrator) :
  (∀ name, is_Some (jobs o !! name) → is_Some (job_assignments o !! name)) →
  ∃ st,
    get_job_status isoformat o = Return st o
    ∧ st_jobs st
      = list_to_map
          ((λ kv, (kv.1, job_status_of isoformat o kv.1 kv.2
                           (default AUTO (job_assignments o !! kv.1))))
             <$> map_to_list (jobs o)).
Proof.
  intros Hdom. unfold get_job_status.
  rewrite (bind_returns _ _ o o o) by reflexivity. cbv zeta.
  eexists.
  erewrite (bind_returns _ _ _ o o).
  - split; reflexivity.
  - apply build_returns. intros [job_name job] Hin.
    apply elem_of_map_to_list in Hin.
    destruct (Hdom job_name) as [provider Hp]; [eauto|].
    cbn. rewrite Hp. cbn.
    rewrite (bind_returns _ _ provider o o) by reflexivity.
    rewrite (bind_returns _ _ _ o o (guarded_div _ _ _)).
    reflexivity.
Qed.


End JobStatus.

Lemma sum_values_zero {V} (f : V → Z) (d : gmap string V) :
  (∀ name v, d !! name = Some v → f v = 0) → sum_values f d = 0.
Proof.
  intros Hzero. unfold sum_values.
  assert (Hall : Forall (λ kv, f kv.2 = 0) (map_to_list d)).
  { apply Forall_forall. intros [name v] Hin.
    apply elem_of_map_to_list in Hin. apply (Hzero name v Hin). }
  induction Hall as [|kv l Hkv _ IH]; cbn; [reflexivity|lia].
Qed.

Lemma guarded_ratio_no_executions (a : Z) : guarded_ratio a 0 = 0%Q.
Proof. reflexivity. Qed.

Section Reports.

Variable fromisoformat : string → option datetime.
Variable isoformat : datetime → string.
Variable keccak4 : string → string.

(** C9. In every reachable state every job's [total_gas_used] and
    [total_fees_paid] are 0, no operation ever changing them, so
    [get_job_status] reports zero gas and zero fees for every job and
    [get_performance_report] reports zero cumulative gas and fees. *)
Theorem gas_and_fees_always_zero (s : System) :
  reachable fromisoformat keccak4 s →
  (∀ job_name m, metrics s.1 !! job_name = Some m →
     total_gas_used m = 0 ∧ total_fees_paid m = 0)
  ∧ (∃ st, get_job_status isoformat s.1 = Return st s.1
           ∧ ∀ job_name js, st_jobs st !! job_name = Some js →
               ms_total_gas_used (js_metrics js) = 0
               ∧ ms_total_fees_paid (js_metrics js) = 0)
  ∧ (∃ r, get_performance_report s.1 = Return r s.1
          ∧ om_total_gas_used (pr_overall_metrics r) = 0
          ∧ om_total_fees_paid (pr_overall_metrics r) = 0).
Proof.
  intros Hs. destruct (reachable_ok _ _ s Hs) as [Hok Hdom].
  assert (Hzero : ∀ job_name m, metrics s.1 !! job_name = Some m →
                    total_gas_used m = 0 ∧ total_fees_paid m = 0).
  { intros job_name m Hm. destruct (Hok job_name m Hm) as (_ & ? & ?). auto. }
  split; [exact Hzero|]. split.
  - destruct (get_job_status_returns isoformat s.1 Hdom) as (st & Hst & Hjobs).
    exists st. split; [exact Hst|]. intros job_name js.
    rewrite Hjobs.
    rewrite (lookup_comprehension
               (λ k j, job_status_of isoformat s.1 k j
                         (default AUTO (job_assignments s.1 !! k)))).
    destruct (jobs s.1 !! job_name) as [job|]; [|discriminate].
    intros [= <-]. cbn.
    destruct (metrics s.1 !! job_name) as [m|] eqn:Hm; cbn; [|auto].
    apply (Hzero job_name m Hm).
  - destruct (get_performance_report_returns s.1) as (providers & Hr).
    eexists. split; [exact Hr|]. cbn.
    split; apply sum_values_zero; intros name m Hm;
      apply (Hzero name m Hm).
Qed.


End Reports.

(** ** The theorems above at concrete runs *)

Lemma after_one_execution_reachable :
  reachable fromisoformat_basic keccak4_text after_one_execution.
Proof. unfold after_one_execution. do 2 apply reachable_run. apply reachable_init. Qed.

Lemma total_executions_monotone_witness :
  ∃ m1 m2,
    metrics (apply_updates fromisoformat_basic [FromChainlink executed_once]
               (final_state (add_job keeper_rebalance
                  (init (Some example_keeper) (Some example_relay)))))
      !! "vault_rebalance" = Some m1
    ∧ metrics (apply_updates fromisoformat_basic
                 ([FromChainlink executed_once] ++ [FromGelato three_executions])
                 (final_state (add_job keeper_rebalance
                    (init (Some example_keeper) (Some example_relay)))))
        !! "vault_rebalance" = Some m2
    ∧ total_executions ExecutionMetrics_default ≤ total_executions m1
    ∧ total_executions m1 ≤ total_executions m2.
Proof.
  apply (total_executions_monotone fromisoformat_basic).
  vm_compute. reflexivity.
Defined.

Lemma successful_failed_le_total_witness :
  ∃ m, metrics after_one_execution.1 !! "vault_rebalance" = Some m
       ∧ successful_executions m + failed_executions m ≤ total_executions m.
Proof.
  eexists. split; [vm_compute; reflexivity|].
  apply (successful_failed_le_total fromisoformat_basic keccak4_text
           after_one_execution "vault_rebalance").
  - apply after_one_execution_reachable.
  - vm_compute. reflexivity.
Defined.

Lemma gas_and_fees_always_zero_witness :
  ∃ r, get_performance_report after_one_execution.1
       = Return r after_one_execution.1
       ∧ om_total_gas_used (pr_overall_metrics r) = 0
       ∧ om_total_fees_paid (pr_overall_metrics r) = 0.
Proof.
  apply (gas_and_fees_always_zero fromisoformat_basic isoformat_basic
           keccak4_text after_one_execution).
  apply after_one_execution_reachable.
Defined.


(** ** Processing a relay status *)

Lemma for_each_cons {S A} (x : A) (xs : list A) (body : A → Py S unit) :
  for_each (x :: xs) body = (body x ≫= λ _, for_each xs body).
Proof. reflexivity. Qed.

Lemma gt_with_last_same (t : GelatoTask) :
  gt_with_last (gt_last_execution t) t = t.
Proof. destruct t; reflexivity. Qed.

(** *** The running diff on a history in time order *)

Lemma newer_than_later (last prev : option datetime) (t : datetime) :
  (∀ p, prev = Some p → p ≤ t) →
  newer_than (later last prev) t
  = newer_than last t && negb (bool_decide (prev = Some t)).
Proof.
  intros Hle. destruct last as [l|], prev as [p|]; cbn;
    try specialize (Hle p eq_refl);
    repeat case_bool_decide; cbn; try reflexivity;
    try (exfalso; match goal with H : ¬ Some _ = Some _ |- _ =>
                    apply H; f_equal end);
    simplify_eq; lia.
Qed.

Lemma later_advance (last prev : option datetime) (t : datetime) :
  (∀ p, prev = Some p → p ≤ t) →
  (if newer_than (later last prev) t then Some t else later last prev)
  = later last (Some t).
Proof.
  intros Hle. destruct last as [l|], prev as [p|]; cbn;
    try specialize (Hle p eq_refl);
    repeat case_bool_decide; cbn; f_equal; lia.
Qed.

Lemma sorted_after_prev (R : relation Z) (prev : option datetime) (t : datetime)
    (ts : list datetime) :
  Sorted R (option_list prev ++ t :: ts) →
  (∀ p, prev = Some p → R p t) ∧ Sorted R (option_list (Some t) ++ ts).
Proof.
  destruct prev as [p|]; cbn; intros Hs.
  - apply Sorted_inv in Hs as [Hs Hhd]. apply HdRel_inv in Hhd.
    split; [intros ? [= <-]; exact Hhd|exact Hs].
  - split; [discriminate|exact Hs].
Qed.

(** On a history in non-decreasing order the loop keeps the first entry of
    each timestamp newer than the initial last-seen, and ends with the later
    of the initial last-seen and the newest timestamp. *)
Lemma kept_nondecreasing (h : list (ExecutionEntry * datetime))
    (since prev : option datetime) :
  Sorted Z.le (option_list prev ++ h.*2) →
  kept (later since prev) h = newer_entries since (first_of_each prev h)
  ∧ seen (later since prev) h = later since (last (option_list prev ++ h.*2)).
Proof.
  revert prev. induction h as [|[e t] h IH]; intros prev Hs.
  - cbn. split; [reflexivity|]. destruct prev; reflexivity.
  - rewrite fmap_cons in Hs. cbn [snd] in Hs.
    apply sorted_after_prev in Hs as [Hle Hs'].
    destruct (IH (Some t) Hs') as [IHk IHs].
    cbn [kept seen first_of_each snd].
    rewrite (newer_than_later since prev t Hle).
    pose proof (later_advance since prev t Hle) as Hadv.
    rewrite (newer_than_later since prev t Hle) in Hadv.
    assert (Hlast : last (option_list prev ++ ((e, t) :: h).*2)
                    = last (option_list (Some t) ++ h.*2)).
    { destruct prev; reflexivity. }
    rewrite Hlast. unfold newer_entries in *.
    case_bool_decide as Hprev; cbn [negb andb] in *.
    + rewrite andb_false_r in *. rewrite Hadv. auto.
    + rewrite andb_true_r in *.
      destruct (newer_than since t) eqn:Hnew.
      * rewrite filter_cons_True by exact Hnew.
        rewrite <- Hadv in IHk, IHs. rewrite IHk, IHs. auto.
      * rewrite filter_cons_False by (cbn; congruence).
        rewrite Hadv. auto.
Qed.

(** With strictly increasing timestamps no entry repeats the one before. *)
Lemma first_of_each_increasing (h : list (ExecutionEntry * datetime))
    (prev : option datetime) :
  Sorted Z.lt (option_list prev ++ h.*2) → first_of_each prev h = h.
Proof.
  revert prev. induction h as [|[e t] h IH]; intros prev Hs; [reflexivity|].
  rewrite fmap_cons in Hs. cbn [snd] in Hs.
  apply sorted_after_prev in Hs as [Hlt Hs'].
  cbn. rewrite bool_decide_eq_false_2.
  - f_equal. apply IH, Hs'.
  - intros ->. specialize (Hlt t eq_refl). lia.
Qed.

(** Entries none of which is newer than last-seen leave no trace. *)
Lemma kept_nothing (h : list (ExecutionEntry * datetime))
    (last : option datetime) :
  Forall (λ et, newer_than last et.2 = false) h →
  kept last h = [] ∧ seen last h = last.
Proof.
  induction 1 as [|et h Hnew _ IH]; [auto|].
  cbn. rewrite Hnew. exact IH.
Qed.

Lemma nondecreasing_le_last (ts : list datetime) :
  Sorted Z.le ts → ∀ x, x ∈ ts → ∃ l, last ts = Some l ∧ x ≤ l.
Proof.
  intros Hs. apply Sorted_StronglySorted in Hs; [|intros ???; lia].
  induction Hs as [|t ts Hs IH Hall]; intros x Hx; [inversion Hx|].
  destruct ts as [|t' ts'].
  - apply list_elem_of_singleton in Hx as ->. exists t. split; [reflexivity|lia].
  - rewrite last_cons_cons.
    apply elem_of_cons in Hx as [->|Hx]; [|apply IH, Hx].
    destruct (IH t') as (l & Hl & _); [left|].
    exists l. split; [exact Hl|].
    apply last_Some_elem_of in Hl.
    rewrite Forall_forall in Hall. apply Hall, Hl.
Qed.

Section TaskStatus.

Variable fromisoformat : string → option datetime.

(** The loop of [_process_task_status] over a history whose timestamps
    parse. *)
Lemma process_history (h : list (ExecutionEntry * datetime)) :
  Forall (λ et, fromisoformat (default "" (ee_timestamp et.1)) = Some et.2) h →
  ∀ task execs,
    _process_task_status fromisoformat {| st_executions := Some h.*1 |}
      (task, execs)
    = Return tt
        (gt_with_last (seen (gt_last_execution task) h) task,
         execs ++ (recorded (gt_task_id task)
                     <$> kept (gt_last_execution task) h)).
Proof.
  unfold _process_task_status. cbn [st_executions].
  change (default [] (Some h.*1)) with (h.*1).
  induction 1 as [|[e t] h Hparse _ IH]; intros task execs.
  - cbn. rewrite app_nil_r, gt_with_last_same. reflexivity.
  - rewrite fmap_cons, for_each_cons. cbn [fst snd] in *.
    cbn [seen kept snd].
    destruct (newer_than (gt_last_execution task) t) eqn:Hnew.
    + rewrite (bind_returns _ _ tt (task, execs)
                 (gt_set_last_execution t task,
                  execs ++ [recorded (gt_task_id task) (e, t)])).
      * rewrite IH. cbn. rewrite <- app_assoc. reflexivity.
      * unfold parse_iso. rewrite Hparse. py_unfold. cbn.
        rewrite Hnew. reflexivity.
    + rewrite (bind_returns _ _ tt (task, execs) (task, execs)).
      * apply IH.
      * unfold parse_iso. rewrite Hparse. py_unfold. cbn.
        rewrite Hnew. reflexivity.
Qed.

(** C5, amended. For every relay task and every status poll whose
    execution history is in non-decreasing timestamp order,
    [_process_task_status] appends exactly one execution record per
    distinct timestamp strictly newer than the task's last-seen timestamp at
    the start of the poll (the record of the first entry carrying it: an
    entry repeating the timestamp of the entry before it is not recorded),
    sets last-seen to the later of its old value and the newest timestamp,
    and records nothing when the same history is polled again.  When the
    timestamps are strictly increasing this is one record per entry newer
    than last-seen. *)
Theorem process_task_status_records (task : GelatoTask)
    (execs : list TaskExecution) (h : list (ExecutionEntry * datetime)) :
  Forall (λ et, fromisoformat (default "" (ee_timestamp et.1)) = Some et.2) h →
  Sorted Z.le h.*2 →
  let status := {| st_executions := Some h.*1 |} in
  ∃ task',
    _process_task_status fromisoformat status (task, execs)
    = Return tt
        (task',
         execs ++ (recorded (gt_task_id task)
                     <$> newer_entries (gt_last_execution task)
                           (first_of_each None h)))
    ∧ task' = gt_with_last (later (gt_last_execution task) (last h.*2)) task
    ∧ (Sorted Z.lt h.*2 → first_of_each None h = h)
    ∧ ∀ execs',
        _process_task_status fromisoformat status (task', execs')
        = Return tt (task', execs').
Proof.
  intros Hparse Hsorted status. subst status.
  assert (Hnone : ∀ o, later o None = o) by (intros [?|]; reflexivity).
  destruct (kept_nondecreasing h (gt_last_execution task) None Hsorted)
    as [Hkept Hseen].
  rewrite Hnone in Hkept, Hseen. cbn [option_list app] in Hseen.
  eexists. split; [|split; [reflexivity|split]].
  - rewrite (process_history h Hparse), Hkept, Hseen. reflexivity.
  - intros Hlt. apply (first_of_each_increasing h None Hlt).
  - intros execs'. rewrite (process_history h Hparse). cbn [gt_last_execution gt_with_last].
    destruct (kept_nothing h (later (gt_last_execution task) (last h.*2)))
      as [Hk Hs].
    { apply Forall_forall. intros et Het.
      destruct (nondecreasing_le_last h.*2 Hsorted et.2) as (l & Hl & Hle).
      { apply list_elem_of_fmap. eauto. }
      rewrite Hl. destruct (gt_last_execution task); cbn;
        apply bool_decide_eq_false_2; lia. }
    rewrite Hk, Hs, app_nil_r. reflexivity.
Qed.

End TaskStatus.

Lemma process_task_status_records_witness :
  ∃ task',
    _process_task_status fromisoformat_basic
      {| st_executions := Some plain_history.*1 |} (harvest_task, [])
    = Return tt
        (task',
         [] ++ (recorded (gt_task_id harvest_task)
                  <$> newer_entries (gt_last_execution harvest_task)
                        (first_of_each None plain_history)))
    ∧ task' = gt_with_last (later (gt_last_execution harvest_task)
                                  (last plain_history.*2)) harvest_task
    ∧ (Sorted Z.lt plain_history.*2 → first_of_each None plain_history
                                      = plain_history)
    ∧ ∀ execs',
        _process_task_status fromisoformat_basic
          {| st_executions := Some plain_history.*1 |} (task', execs')
        = Return tt (task', execs').
Proof.
  apply (process_task_status_records fromisoformat_basic harvest_task []
           plain_history).
  - repeat constructor.
  - repeat constructor; cbn; lia.
Defined.

(** C5 as stated fails: the relay reports two executions under one
    timestamp, in non-decreasing order and both strictly newer than the
    task's last-seen timestamp, and only the first is recorded. *)
Lemma tie_recorded_once :
  Sorted Z.le tie_history.*2
  ∧ Forall (λ et, fromisoformat_basic (default "" (ee_timestamp et.1))
                  = Some et.2) tie_history
  ∧ length (newer_entries (gt_last_execution harvest_task) tie_history) = 2%nat
  ∧ ∃ task' execs,
      _process_task_status fromisoformat_basic
        {| st_executions := Some tie_history.*1 |} (harvest_task, [])
      = Return tt (task', execs)
      ∧ length execs = 1%nat.
Proof.
  split; [repeat constructor; cbn; lia|].
  split; [repeat constructor|].
  split; [reflexivity|].
  eexists _, _. split; [vm_compute; reflexivity|reflexivity].
Qed.

(** ** Registration with the keeper registry *)

Lemma register_upkeep_insufficient (self : ChainlinkKeeperManager)
    (name target_contract : string) (gas_limit : Z) (check_data : string)
    (funding_amount : Z) (w : World) :
  online w = true →
  link_balance w < funding_amount →
  register_upkeep self name target_contract gas_limit check_data
    funding_amount w
  = Raise (ValueError (InsufficientLink funding_amount (link_balance w))) w.
Proof.
  intros Hon Hlow. unfold register_upkeep, rpc, log_only. py_unfold.
  rewrite Hon. rewrite bool_decide_eq_true_2 by exact Hlow. reflexivity.
Qed.



(** ** Cancelling a job *)






(** * Further properties of the code *)

(** ** What decides the selection *)












(** ** What deployment and cancellation keep *)

Lemma same_identity_refl (j : AutomationJob) : same_identity j j.
Proof. unfold same_identity. auto 12. Qed.

Lemma same_identity_trans (a b c : AutomationJob) :
  same_identity a b → same_identity b c → same_identity a c.
Proof.
  unfold same_identity. intros (?&?&?&?&?&?&?&?&?&?) (?&?&?&?&?&?&?&?&?&?).
  repeat split; congruence.
Qed.

#[global] Instance jobs_evolve_preorder : PreOrder jobs_evolve.
Proof.
  split.
  - intros s. unfold jobs_evolve. repeat split; auto.
    + exists []. now rewrite app_nil_r.
    + intros name. destruct (jobs s.1 !! name); [|reflexivity].
      eexists. split; [reflexivity|apply same_identity_refl].
  - intros a b c (?&?&[l1 Hl1]&Hab) (?&?&[l2 Hl2]&Hbc).
    unfold jobs_evolve. split; [congruence|]. split; [congruence|].
    split; [exists (l1 ++ l2); rewrite Hl2, Hl1; now rewrite app_assoc|].
    intros name. specialize (Hab name). specialize (Hbc name).
    destruct (jobs a.1 !! name) as [ja|].
    + destruct Hab as (jb & Eb & Sab). rewrite Eb in Hbc.
      destruct Hbc as (jc & Ec & Sbc). exists jc. split; [exact Ec|].
      eapply same_identity_trans; eassumption.
    + rewrite Hab in Hbc. exact Hbc.
Qed.

(** A step that leaves the registry, the assignments, the metrics and the
    log alone. *)
Lemma jobs_evolve_adapters (s s' : System) :
  jobs s'.1 = jobs s.1 → job_assignments s'.1 = job_assignments s.1 →
  metrics s'.1 = metrics s.1 → logged s'.1 = logged s.1 →
  jobs_evolve s s'.
Proof.
  intros Hj Ha Hm Hl. unfold jobs_evolve. rewrite Hj, Ha, Hm, Hl.
  repeat split; auto.
  - exists []. now rewrite app_nil_r.
  - intros name. destruct (jobs s.1 !! name); [|reflexivity].
    eexists. split; [reflexivity|apply same_identity_refl].
Qed.

Section Preserving.

Context {S : Type} (R : relation S) `{!PreOrder R}.

Lemma preserves_bind {A B} (m : Py S A) (k : A → Py S B) :
  preserves R m → (∀ a, preserves R (k a)) → preserves R (m ≫= k).
Proof.
  intros Hm Hk s. py_unfold. specialize (Hm s).
  destruct (m s) as [a s'|e s']; cbn in *; [|exact Hm].
  etransitivity; [exact Hm|apply Hk].
Qed.

Lemma preserves_ret {A} (a : A) : preserves R (mret a).
Proof. intros s. reflexivity. Qed.

Lemma preserves_raise {A} (e : exn) : preserves R (raise (A := A) e).
Proof. intros s. reflexivity. Qed.

Lemma preserves_get : preserves R get.
Proof. intros s. reflexivity. Qed.

Lemma preserves_try_reraise {A} (m : Py S A) (h : exn → S → S) :
  preserves R m → (∀ e s, R s (h e s)) → preserves R (try_reraise m h).
Proof.
  intros Hm Hh s. unfold try_reraise. specialize (Hm s).
  destruct (m s) as [a s'|e s']; cbn in *; [exact Hm|].
  etransitivity; [exact Hm|apply Hh].
Qed.

Lemma preserves_try_except (m : Py S unit) (h : exn → S → S) :
  preserves R m → (∀ e s, R s (h e s)) → preserves R (try_except m h).
Proof.
  intros Hm Hh s. unfold try_except. specialize (Hm s).
  destruct (m s) as [a s'|e s']; cbn in *; [exact Hm|].
  etransitivity; [exact Hm|apply Hh].
Qed.

Lemma preserves_for_each {A} (xs : list A) (body : A → Py S unit) :
  (∀ x, preserves R (body x)) → preserves R (for_each xs body).
Proof.
  intros Hbody s. apply (for_each_preserves (R s)); [|reflexivity].
  intros x s' Hs'. etransitivity; [exact Hs'|apply Hbody].
Qed.

End Preserving.

Lemma evolve_on_world {A} (m : Py World A) : preserves jobs_evolve (on_world m).
Proof.
  intros s. unfold on_world, zoom.
  destruct (m s.2); now apply jobs_evolve_adapters.
Qed.

Lemma evolve_datetime_now : preserves jobs_evolve datetime_now.
Proof. intros s. reflexivity. Qed.

Lemma evolve_on_gelato {A} (m : Py (GelatoManager * World) A) :
  preserves jobs_evolve (on_gelato m).
Proof.
  intros s. unfold on_gelato.
  destruct (gelato_manager s.1); [|reflexivity].
  destruct (m _); now apply jobs_evolve_adapters.
Qed.

Lemma evolve_on_chainlink (f : ChainlinkKeeperManager → ChainlinkKeeperManager) :
  preserves jobs_evolve (on_chainlink f).
Proof.
  intros s. unfold on_chainlink.
  destruct (chainlink_manager s.1); [|reflexivity].
  now apply jobs_evolve_adapters.
Qed.

Lemma evolve_log (r : log_record) (s : System) :
  jobs_evolve s (log r s.1, s.2).
Proof.
  unfold jobs_evolve. cbn. repeat split; eauto.
  intros name. destruct (jobs s.1 !! name); [|reflexivity].
  eexists. split; [reflexivity|apply same_identity_refl].
Qed.

Lemma evolve_on_log (r : log_record) :
  preserves jobs_evolve (on_orchestrator (modify (log r))).
Proof. intros s. apply evolve_log. Qed.

Lemma evolve_alter_jobs (f : AutomationJob → AutomationJob) (job_name : string) :
  (∀ j, same_identity j (f j)) →
  preserves jobs_evolve (on_orchestrator (modify (set_jobs (alter f job_name)))).
Proof.
  intros Hf s. unfold jobs_evolve. cbn. repeat split; auto.
  - exists []. now rewrite app_nil_r.
  - intros name. rewrite lookup_alter. case_decide as Hn.
    + subst. destruct (jobs s.1 !! name); cbn; eauto.
    + destruct (jobs s.1 !! name); [|reflexivity].
      eexists. split; [reflexivity|apply same_identity_refl].
Qed.

Lemma evolve_assignment_of (job_name : string) :
  preserves jobs_evolve (assignment_of job_name).
Proof.
  intros s. unfold assignment_of. py_unfold. destruct s as [o w]. cbn.
  destruct (job_assignments o !! job_name); reflexivity.
Qed.

Lemma same_identity_set_active (b : bool) (j : AutomationJob) :
  same_identity j (aj_set_active b j).
Proof. unfold same_identity. cbn. auto 12. Qed.

Lemma same_identity_set_created_at (d : datetime) (j : AutomationJob) :
  same_identity j (aj_set_created_at d j).
Proof. unfold same_identity. cbn. auto 12. Qed.

Create HintDb evolve.
#[local] Hint Resolve preserves_ret preserves_raise preserves_get
  evolve_on_world evolve_datetime_now evolve_on_gelato evolve_on_chainlink
  evolve_on_log evolve_assignment_of evolve_log
  same_identity_set_active same_identity_set_created_at : evolve.
#[local] Hint Extern 1 (PreOrder jobs_evolve) =>
  exact jobs_evolve_preorder : evolve.

Ltac evolve_step :=
  first
    [ apply preserves_bind; [typeclasses eauto| |intros]
    | apply preserves_try_reraise; [typeclasses eauto| |intros; apply evolve_log]
    | apply preserves_try_except; [typeclasses eauto| |intros; apply evolve_log]
    | apply evolve_alter_jobs; solve [auto with evolve]
    | match goal with
      | |- preserves _ (match ?x with _ => _ end) => destruct x
      | |- preserves _ (let '(_, _) := ?x in _) => destruct x
      end
    | solve [auto with evolve] ].

Lemma evolve_cancel_job (job_name : string) :
  preserves jobs_evolve (cancel_job job_name).
Proof. unfold cancel_job. repeat evolve_step. Qed.

Lemma evolve_deploy_job (keccak4 : string → string) (job_name : string) :
  preserves jobs_evolve (deploy_job keccak4 job_name).
Proof.
  unfold deploy_job, _deploy_chainlink_job, _deploy_gelato_job.
  repeat evolve_step.
Qed.

(** ** Consistency of the registry *)

Lemma registry_consistent_evolve (s s' : System) :
  jobs_evolve s s' → registry_consistent s.1 → registry_consistent s'.1.
Proof.
  intros (Hm & Ha & _ & Hj) [Hjobs Hassigned]. split.
  - intros name j' Hj'. specialize (Hj name).
    destruct (jobs s.1 !! name) as [j|] eqn:E; [|congruence].
    destruct Hj as (j2 & E2 & Hname & _ & _ & _ & _ & _ & _ & _ & Hprov & _).
    assert (j2 = j') by congruence. subst j2.
    destruct (Hjobs name j E) as (? & ? & ? & ?).
    rewrite Hm, Ha, Hname, Hprov. auto.
  - intros name. rewrite Ha. intros H. apply Hassigned in H as [j E].
    specialize (Hj name). rewrite E in Hj. destruct Hj as (j' & -> & _). eauto.
Qed.

Lemma registry_consistent_metrics (o o' : AutomationOrchestrator) :
  metrics_evolve o o' → registry_consistent o → registry_consistent o'.
Proof.
  intros (_ & _ & Hj & Ha & _ & Hm) [Hjobs Hassigned]. split.
  - intros name j. rewrite Hj, Ha. intros E.
    destruct (Hjobs name j E) as (? & ? & ? & [m Em]).
    repeat split; auto. specialize (Hm name). rewrite Em in Hm.
    destruct Hm as (m' & -> & _). eauto.
  - intros name. rewrite Hj, Ha. apply Hassigned.
Qed.

Lemma registry_consistent_reset (name : string) (o : AutomationOrchestrator) :
  registry_consistent o →
  registry_consistent (set_metrics (insert name ExecutionMetrics_default) o).
Proof.
  intros [Hjobs Hassigned]. split; cbn; [|exact Hassigned].
  intros n j E. destruct (Hjobs n j E) as (? & ? & ? & ?).
  repeat split; auto. rewrite lookup_insert. case_decide; eauto.
Qed.

Lemma registry_consistent_log (r : log_record) (o : AutomationOrchestrator) :
  registry_consistent o → registry_consistent (log r o).
Proof. intros Ho. exact Ho. Qed.

Lemma registry_consistent_stored (job : AutomationJob)
    (o : AutomationOrchestrator) :
  aj_provider job ≠ AUTO →
  is_Some (metrics o !! aj_name job) →
  registry_consistent o →
  registry_consistent (stored job o).
Proof.
  intros Hp Hm [Hjobs Hassigned]. split; cbn.
  - intros name j. rewrite !lookup_insert. case_decide as Hn.
    + intros [= <-]. subst name. eauto.
    + apply Hjobs.
  - intros name. rewrite !lookup_insert. case_decide; eauto.
Qed.

Lemma add_job_consistent (job : AutomationJob) (o : AutomationOrchestrator) :
  registry_consistent o → registry_consistent (final_state (add_job job o)).
Proof.
  intros Ho.
  assert (Hm : is_Some (metrics (set_metrics
                 (insert (aj_name job) ExecutionMetrics_default) o)
                 !! aj_name job)).
  { cbn. rewrite lookup_insert_eq. eauto. }
  destruct (decide (aj_provider job = AUTO)) as [Hauto|Hexp].
  - rewrite (add_job_auto job o Hauto).
    destruct (select_cases job
                (set_metrics (insert (aj_name job) ExecutionMetrics_default) o))
      as [(_ & _ & ->)|(p & score & _ & Hp & ->)]; cbn.
    + now apply registry_consistent_reset.
    + apply (registry_consistent_stored (aj_set_provider p job));
        [exact Hp|exact Hm|].
      now apply registry_consistent_log, registry_consistent_reset.
  - rewrite (add_job_explicit job o Hexp). cbn.
    apply registry_consistent_stored; [exact Hexp|exact Hm|].
    now apply registry_consistent_reset.
Qed.

Section Consistency.

Variable fromisoformat : string → option datetime.
Variable keccak4 : string → string.

Lemma reachable_consistent (s : System) :
  reachable fromisoformat keccak4 s → registry_consistent s.1.
Proof.
  induction 1 as [km gm w|op s _ IH|s s' _ IH (Hj & Ha & Hm)].
  - split; cbn; intros name; [intros j|]; rewrite lookup_empty;
      [discriminate|intros [? ?]; discriminate].
  - destruct op as [job|job_name|job_name|u]; cbn.
    + rewrite on_orchestrator_final. cbn. apply add_job_consistent, IH.
    + eapply registry_consistent_evolve; [apply evolve_deploy_job|exact IH].
    + eapply registry_consistent_evolve; [apply evolve_cancel_job|exact IH].
    + rewrite on_orchestrator_final. cbn.
      eapply registry_consistent_metrics; [apply apply_update_evolves|exact IH].
  - destruct IH as [Hjobs Hassigned]. split.
    + intros name j. rewrite Hj, Ha, Hm. apply Hjobs.
    + intros name. rewrite Hj, Ha. apply Hassigned.
Qed.

(** X4. In every reachable state every job is filed under its own name, is
    assigned to the provider its record names, which is never "auto", and has
    a metrics record; so [deploy_job] and [cancel_job] always reach one of
    the two adapters' branches and [get_job_status] never falls back to
    default metrics. *)
Theorem registry_stays_consistent (s : System) (job_name : string)
    (job : AutomationJob) :
  reachable fromisoformat keccak4 s →
  jobs s.1 !! job_name = Some job →
  aj_name job = job_name
  ∧ job_assignments s.1 !! job_name = Some (aj_provider job)
  ∧ aj_provider job ≠ AUTO
  ∧ is_Some (metrics s.1 !! job_name).
Proof.
  intros Hs Hj. destruct (reachable_consistent s Hs) as [Hjobs _].
  apply (Hjobs job_name job Hj).
Qed.

(** X5. [deploy_job] and [cancel_job], whether they return or raise, leave
    the metrics and the assignments as they are, only append to the log, and
    change nothing of any job's record but [created_at] and [active]: no job
    appears, disappears or changes its name, target, gas limit, frequency,
    fee cap, priority, provider or [last_execution]. *)
Theorem deploy_and_cancel_keep_jobs (job_name name : string) (s : System)
    (j : AutomationJob) :
  jobs s.1 !! name = Some j →
  let after_deploy := final_state (deploy_job keccak4 job_name s) in
  let after_cancel := final_state (cancel_job job_name s) in
  (∃ j', jobs after_deploy.1 !! name = Some j' ∧ same_identity j j')
  ∧ (∃ j', jobs after_cancel.1 !! name = Some j' ∧ same_identity j j')
  ∧ metrics after_deploy.1 = metrics s.1
  ∧ metrics after_cancel.1 = metrics s.1
  ∧ job_assignments after_deploy.1 = job_assignments s.1
  ∧ job_assignments after_cancel.1 = job_assignments s.1
  ∧ dom (jobs after_deploy.1) = dom (jobs s.1)
  ∧ dom (jobs after_cancel.1) = dom (jobs s.1).
Proof.
  intros Hj after_deploy after_cancel.
  assert (Hdom : ∀ s', jobs_evolve s s' → dom (jobs s'.1) = dom (jobs s.1)).
  { intros s' (_ & _ & _ & H). apply set_eq. intros n.
    rewrite !elem_of_dom. specialize (H n).
    destruct (jobs s.1 !! n) as [x|].
    - destruct H as (x' & -> & _). split; eauto.
    - rewrite H. reflexivity. }
  pose proof (evolve_deploy_job keccak4 job_name s) as Hd.
  pose proof (evolve_cancel_job job_name s) as Hc.
  fold after_deploy in Hd. fold after_cancel in Hc.
  pose proof (Hdom _ Hd). pose proof (Hdom _ Hc).
  destruct Hd as (? & ? & _ & Hdj). destruct Hc as (? & ? & _ & Hcj).
  specialize (Hdj name). specialize (Hcj name). rewrite Hj in Hdj, Hcj.
  repeat split; assumption.
Qed.

End Consistency.

Lemma registry_stays_consistent_witness :
  aj_name keeper_rebalance = "vault_rebalance"
  ∧ job_assignments after_one_execution.1 !! "vault_rebalance"
    = Some (aj_provider keeper_rebalance)
  ∧ aj_provider keeper_rebalance ≠ AUTO
  ∧ is_Some (metrics after_one_execution.1 !! "vault_rebalance").
Proof.
  apply (registry_stays_consistent fromisoformat_basic keccak4_text
           after_one_execution).
  - apply after_one_execution_reachable.
  - vm_compute. reflexivity.
Defined.

Lemma deploy_and_cancel_keep_jobs_witness :
  ∃ j', jobs (final_state (deploy_job keccak4_text "vault_rebalance"
                             after_one_execution)).1 !! "vault_rebalance"
        = Some j'
        ∧ same_identity keeper_rebalance j'.
Proof.
  apply (deploy_and_cancel_keep_jobs keccak4_text "vault_rebalance"
           "vault_rebalance" after_one_execution keeper_rebalance).
  vm_compute. reflexivity.
Defined.

(** ** Edges of [add_job], [deploy_job] and [cancel_job] *)

(** X6. Adding an "auto" job while no adapter is initialized raises "No
    automation providers available" after the metrics have been written:
    the job and its assignment are not stored, but a zeroed metrics record
    stays under its name (replacing any earlier one), and
    [get_performance_report] lists it. *)
Theorem failed_add_leaves_metrics (job : AutomationJob)
    (self : AutomationOrchestrator) :
  aj_provider job = AUTO →
  chainlink_manager self = None →
  gelato_manager self = None →
  ∃ self' report,
    add_job job self = Raise (ValueError NoProvidersAvailable) self'
    ∧ jobs self' = jobs self
    ∧ job_assignments self' = job_assignments self
    ∧ logged self' = logged self
    ∧ metrics self' = <[aj_name job := ExecutionMetrics_default]> (metrics self)
    ∧ get_performance_report self' = Return report self'
    ∧ pr_job_metrics report !! aj_name job
      = Some {| jm_executions := 0; jm_success_rate := 0;
                jm_gas_efficiency := 0 |}.
Proof.
  intros Hauto Hk Hg.
  destruct (get_performance_report_returns
              (set_metrics (insert (aj_name job) ExecutionMetrics_default) self))
    as (providers & Hr).
  eexists _, _. split.
  - rewrite (add_job_auto job self Hauto).
    destruct (select_cases job
                (set_metrics (insert (aj_name job) ExecutionMetrics_default) self))
      as [(_ & _ & ->)|(p & score & [[? H]|[? H]] & _)]; [reflexivity| |];
      cbn in H; congruence.
  - repeat split; [exact Hr|]. cbn.
    rewrite (lookup_comprehension (λ _ m, job_metrics_of m)).
    rewrite lookup_insert_eq. reflexivity.
Qed.

Lemma failed_add_leaves_metrics_witness :
  ∃ self' report,
    add_job vault_rebalance (init None None)
    = Raise (ValueError NoProvidersAvailable) self'
    ∧ jobs self' = jobs (init None None)
    ∧ job_assignments self' = job_assignments (init None None)
    ∧ logged self' = logged (init None None)
    ∧ metrics self'
      = <[aj_name vault_rebalance := ExecutionMetrics_default]>
          (metrics (init None None))
    ∧ get_performance_report self' = Return report self'
    ∧ pr_job_metrics report !! aj_name vault_rebalance
      = Some {| jm_executions := 0; jm_success_rate := 0;
                jm_gas_efficiency := 0 |}.
Proof.
  apply (failed_add_leaves_metrics vault_rebalance (init None None));
    reflexivity.
Defined.

(** X7. [deploy_job] and [cancel_job] of a name that is not in the registry
    raise "Job ... not found" and do nothing else: no log record, no
    transaction, no change of the adapters. *)
Theorem unknown_job_is_rejected (keccak4 : string → string) (job_name : string)
    (s : System) :
  jobs s.1 !! job_name = None →
  deploy_job keccak4 job_name s = Raise (ValueError (JobNotFound job_name)) s
  ∧ cancel_job job_name s = Raise (ValueError (JobNotFound job_name)) s.
Proof.
  destruct s as [o w]. cbn. intros Hj.
  unfold deploy_job, cancel_job. py_unfold. cbn. rewrite Hj. auto.
Qed.

Lemma unknown_job_is_rejected_witness :
  cancel_job "no_such_job" after_one_execution
  = Raise (ValueError (JobNotFound "no_such_job")) after_one_execution.
Proof.
  apply (unknown_job_is_rejected keccak4_text "no_such_job" after_one_execution).
  vm_compute. reflexivity.
Defined.

Lemma cancel_job_cases (job_name : string) (s : System) :
  match cancel_job job_name s with
  | Return _ s' =>
      is_Some (jobs s.1 !! job_name)
      ∧ jobs s'.1 = alter (aj_set_active false) job_name (jobs s.1)
  | Raise _ s' => jobs s'.1 = jobs s.1
  end.
Proof.
  destruct s as [o w]. unfold cancel_job, assignment_of. py_unfold. cbn.
  destruct (jobs o !! job_name) as [job|] eqn:Hj; [|reflexivity].
  destruct (job_assignments o !! job_name) as [[| |]|]; cbn;
    [| |eauto|reflexivity].
  - unfold on_chainlink. cbn.
    destruct (chainlink_manager o); cbn; eauto.
  - unfold on_gelato. cbn.
    destruct (gelato_manager o) as [gm|]; cbn; [|reflexivity].
    destruct (cancel_task job_name (gm, w)) as [[] [gm' w']|e [gm' w']];
      cbn; eauto.
Qed.

(** X8. [cancel_job] marks a job inactive exactly when it returns: then the
    registry is the old one with that job's [active] set to False; when it
    raises, for whatever reason, every job record is as it was, so a job
    whose cancellation failed stays active. *)
Theorem cancel_job_all_or_nothing (job_name : string) (s : System) :
  match cancel_job job_name s with
  | Return _ s' =>
      is_Some (jobs s.1 !! job_name)
      ∧ jobs s'.1 = alter (aj_set_active false) job_name (jobs s.1)
  | Raise _ s' => jobs s'.1 = jobs s.1
  end.
Proof. apply cancel_job_cases. Qed.

(** X9. [deploy_job] stamps [created_at] exactly when it returns: then the
    registry is the old one with that job's [created_at] set to the current
    time; when it raises, every job record is as it was. *)
Theorem deploy_job_all_or_nothing (keccak4 : string → string)
    (job_name : string) (s : System) :
  match deploy_job keccak4 job_name s with
  | Return _ s' =>
      is_Some (jobs s.1 !! job_name)
      ∧ jobs s'.1 = alter (aj_set_created_at (now s'.2)) job_name (jobs s.1)
  | Raise _ s' => jobs s'.1 = jobs s.1
  end.
Proof.
  destruct s as [o w]. unfold deploy_job, assignment_of. py_unfold. cbn.
  destruct (jobs o !! job_name) as [job|] eqn:Hj; [|reflexivity].
  destruct (job_assignments o !! job_name) as [[| |]|]; cbn;
    [| |eauto|reflexivity].
  - unfold _deploy_chainlink_job, on_world, on_chainlink. py_unfold. cbn.
    destruct (chainlink_manager o) as [km|] eqn:Hk; cbn; [|reflexivity].
    destruct (register_upkeep _ _ _ _ _ _ w) as [id w'|e w']; cbn;
      [|reflexivity].
    rewrite Hk. cbn. eauto.
  - unfold _deploy_gelato_job, on_gelato. py_unfold. cbn.
    destruct (gelato_manager o) as [gm|] eqn:Hg; cbn; [|reflexivity].
    rewrite Hg.
    match goal with
    | |- context [create_task keccak4 ?t (gm, w)] =>
        destruct (create_task keccak4 t (gm, w))
          as [[id t'] [gm' w']|e [gm' w']]
    end; cbn; eauto.
Qed.

(** ** Deployment to each adapter *)


(** X10. Deploying a keeper job when the account holds less LINK than the
    bond of 5 * 10^18 raises "Insufficient LINK balance" before anything is
    sent: no transaction, the keeper manager does not get the job,
    [created_at] is not stamped, and the failure is logged. *)
Theorem deploy_keeper_insufficient_funds (keccak4 : string → string)
    (s : System) (job_name : string) (job : AutomationJob)
    (km : ChainlinkKeeperManager) :
  jobs s.1 !! job_name = Some job →
  job_assignments s.1 !! job_name = Some CHAINLINK →
  chainlink_manager s.1 = Some km →
  online s.2 = true →
  link_balance s.2 < default_funding_amount →
  let e := ValueError (InsufficientLink default_funding_amount
                         (link_balance s.2)) in
  deploy_job keccak4 job_name s
  = Raise e (log (ErrorDeploy job_name e) s.1, s.2).
Proof.
  destruct s as [o w]. cbn [fst snd]. intros Hj Ha Hk Hon Hlow.
  unfold deploy_job, assignment_of, _deploy_chainlink_job, on_world.
  py_unfold. cbn. rewrite Hj, Ha. cbn. rewrite Hk. cbn.
  rewrite (register_upkeep_insufficient _ _ _ _ _ _ w Hon Hlow). reflexivity.
Qed.

Lemma deploy_keeper_insufficient_funds_witness :
  raised (deploy_job keccak4_text "vault_rebalance"
            (keeper_registered, poor_world))
  = Some (ValueError (InsufficientLink default_funding_amount (10 ^ 18)))
  ∧ sent (final_state (deploy_job keccak4_text "vault_rebalance"
                         (keeper_registered, poor_world))).2 = [].
Proof.
  rewrite (deploy_keeper_insufficient_funds keccak4_text
             (keeper_registered, poor_world) "vault_rebalance"
             keeper_rebalance example_keeper);
    [split; reflexivity|vm_compute; reflexivity..].
Defined.





(** X13. Cancelling a keeper job is purely local: it returns whether or not
    the endpoint answers, drops the job from the keeper manager and marks it
    inactive, and sends no transaction, so the upkeep registered on chain is
    never cancelled. *)
Theorem cancel_keeper_job_is_local (s : System) (job_name : string)
    (job : AutomationJob) (km : ChainlinkKeeperManager) :
  jobs s.1 !! job_name = Some job →
  job_assignments s.1 !! job_name = Some CHAINLINK →
  chainlink_manager s.1 = Some km →
  ∃ o',
    cancel_job job_name s = Return tt (o', s.2)
    ∧ jobs o' !! job_name = Some (aj_set_active false job)
    ∧ (∃ km', chainlink_manager o' = Some km'
              ∧ km_jobs km' = delete job_name (km_jobs km))
    ∧ logged o' = logged s.1 ++ [InfoCancelled job_name].
Proof.
  destruct s as [o w]. cbn [fst snd]. intros Hj Ha Hk.
  unfold cancel_job, assignment_of, on_chainlink, on_orchestrator.
  py_unfold. cbn. rewrite Hj, Ha. cbn. rewrite Hk. cbn.
  eexists. split; [reflexivity|]. cbn.
  rewrite lookup_alter_eq, Hj. cbn. repeat split.
  eexists. split; [reflexivity|].
  unfold remove_job. case_bool_decide as Hin; [reflexivity|].
  cbn. symmetry. apply delete_id.
  destruct (km_jobs km !! job_name) eqn:E; [|reflexivity].
  exfalso. apply Hin. eauto.
Qed.

Lemma cancel_keeper_job_is_local_witness :
  ∃ o',
    cancel_job "vault_rebalance" after_one_execution
    = Return tt (o', after_one_execution.2)
    ∧ jobs o' !! "vault_rebalance" = Some (aj_set_active false keeper_rebalance).
Proof.
  destruct (cancel_keeper_job_is_local after_one_execution "vault_rebalance"
              keeper_rebalance example_keeper)
    as (o' & Hc & Hj & _); [vm_compute; reflexivity..|].
  exists o'. split; [exact Hc|exact Hj].
Defined.

(** ** Teardown *)

Lemma for_each_returns {S A} (xs : list A) (body : A → Py S unit) :
  (∀ x s, ∃ s', body x s = Return tt s') →
  ∀ s, ∃ s', for_each xs body s = Return tt s'.
Proof.
  intros Hbody. induction xs as [|x xs IH]; intros s; [eexists; reflexivity|].
  destruct (Hbody x s) as [s1 H1]. destruct (IH s1) as [s2 H2].
  exists s2. rewrite for_each_cons, (bind_returns _ _ tt s s1 H1). exact H2.
Qed.

Lemma try_except_returns {S} (m : Py S unit) (h : exn → S → S) (s : S) :
  ∃ s', try_except m h s = Return tt s'.
Proof. unfold try_except. destruct (m s); eauto. Qed.

Lemma gelato_cleanup_returns (st : GelatoManager * World) :
  ∃ st', gelato_cleanup st = Return tt st'.
Proof.
  unfold gelato_cleanup. destruct st as [gm w].
  rewrite (bind_returns _ _ (gm, w) (gm, w) (gm, w)) by reflexivity.
  apply for_each_returns. intros task_name [gm1 w1].
  rewrite (bind_returns _ _ (gm1, w1) (gm1, w1) (gm1, w1)) by reflexivity.
  destruct (tasks gm1 !! task_name) as [task|]; [|eexists; reflexivity].
  destruct (gt_active task && truthy (gt_task_id task));
    [apply try_except_returns|eexists; reflexivity].
Qed.

(** One turn of the loop of [cleanup]. *)
Lemma cleanup_turn (job_name : string) (s : System) :
  ∃ s' added,
    (('(self, _) ← get;
      match jobs self !! job_name with
      | Some job =>
          if aj_active job
          then try_except (cancel_job job_name)
                 (λ e s, (log (ErrorCancel job_name e) s.1, s.2))
          else mret tt
      | None => mret tt
      end) : Py System unit) s = Return tt s'
    ∧ logged s'.1 = logged s.1 ++ added
    ∧ metrics s'.1 = metrics s.1
    ∧ job_assignments s'.1 = job_assignments s.1
    ∧ (∀ n, n ≠ job_name → jobs s'.1 !! n = jobs s.1 !! n)
    ∧ (∀ n, is_Some (jobs s'.1 !! n) ↔ is_Some (jobs s.1 !! n))
    ∧ (∀ n j j', jobs s.1 !! n = Some j → aj_active j = false →
         jobs s'.1 !! n = Some j' → aj_active j' = false)
    ∧ (∀ j', jobs s'.1 !! job_name = Some j' →
         aj_active j' = false ∨ ∃ e, ErrorCancel job_name e ∈ added).
Proof.
  destruct s as [o w].
  rewrite (bind_returns _ _ (o, w) (o, w) (o, w)) by reflexivity. cbn [fst snd].
  assert (Hsame : ∃ s' added,
    Return tt (o, w) = Return (S := System) tt s'
    ∧ logged s'.1 = logged o ++ added
    ∧ metrics s'.1 = metrics o
    ∧ job_assignments s'.1 = job_assignments o
    ∧ (∀ n, n ≠ job_name → jobs s'.1 !! n = jobs o !! n)
    ∧ (∀ n, is_Some (jobs s'.1 !! n) ↔ is_Some (jobs o !! n))
    ∧ (∀ n j j', jobs o !! n = Some j → aj_active j = false →
         jobs s'.1 !! n = Some j' → aj_active j' = false)
    ∧ (∀ j', jobs s'.1 !! job_name = Some j' → jobs o !! job_name = Some j')).
  { exists (o, w), []. cbn. rewrite app_nil_r. repeat split; auto.
    intros n j j' Hj Hin Hj'. congruence. }
  destruct (jobs o !! job_name) as [job|] eqn:Hjob.
  - destruct (aj_active job) eqn:Hactive.
    + pose proof (cancel_job_cases job_name (o, w)) as Hcases.
      pose proof (evolve_cancel_job job_name (o, w)) as (Hm & Ha & [added Hl] & _).
      unfold try_except.
      destruct (cancel_job job_name (o, w)) as [[] s1|e s1]; cbn in *.
      * destruct Hcases as [_ Hjobs].
        exists s1, added. split; [reflexivity|]. rewrite Hjobs.
        repeat split; auto.
        -- intros n Hn. now rewrite lookup_alter_ne.
        -- rewrite lookup_alter_is_Some. auto.
        -- rewrite lookup_alter_is_Some. auto.
        -- intros n j j' Hj Hin. rewrite lookup_alter. case_decide.
           ++ subst. rewrite Hj. intros [= <-]. reflexivity.
           ++ rewrite Hj. intros [= <-]. exact Hin.
        -- intros j'. rewrite lookup_alter_eq, Hjob. intros [= <-]. now left.
      * exists (log (ErrorCancel job_name e) s1.1, s1.2),
          (added ++ [ErrorCancel job_name e]).
        split; [reflexivity|]. cbn. rewrite Hcases, Hl, app_assoc.
        repeat split; auto.
        -- intros n j j' Hj Hin Hj'. congruence.
        -- intros j' _. right. exists e. apply elem_of_app. right. now left.
    + destruct Hsame as (s' & added & Hr & Hl & Hm & Ha & Hne & Hdom & Hin & Hj).
      exists s', added. repeat split; auto; try apply Hdom.
      intros j' Hj'. left. apply Hj in Hj'. congruence.
  - destruct Hsame as (s' & added & Hr & Hl & Hm & Ha & Hne & Hdom & Hin & Hj).
    exists s', added. repeat split; auto; try apply Hdom.
    intros j' Hj'. apply Hj in Hj'. discriminate.
Qed.

Lemma cleanup_loop (names : list string) (s : System) :
  ∃ s' added,
    (for_each names (λ job_name,
       '(self, _) ← get;
       match jobs self !! job_name with
       | Some job =>
           if aj_active job
           then try_except (cancel_job job_name)
                  (λ e s, (log (ErrorCancel job_name e) s.1, s.2))
           else mret tt
       | None => mret tt
       end) : Py System unit) s = Return tt s'
    ∧ logged s'.1 = logged s.1 ++ added
    ∧ metrics s'.1 = metrics s.1
    ∧ job_assignments s'.1 = job_assignments s.1
    ∧ (∀ n, is_Some (jobs s'.1 !! n) ↔ is_Some (jobs s.1 !! n))
    ∧ (∀ n j j', jobs s.1 !! n = Some j → aj_active j = false →
         jobs s'.1 !! n = Some j' → aj_active j' = false)
    ∧ (∀ n j', n ∈ names → jobs s'.1 !! n = Some j' →
         aj_active j' = false ∨ ∃ e, ErrorCancel n e ∈ added).
Proof.
  revert s. induction names as [|x xs IH]; intros s.
  - exists s, []. rewrite app_nil_r. repeat split; auto.
    + intros n j j' Hj Hin Hj'. congruence.
    + intros n j' Hn. inversion Hn.
  - destruct (cleanup_turn x s)
      as (s1 & added1 & Hr1 & Hl1 & Hm1 & Ha1 & _ & Hdom1 & Hin1 & Hx).
    destruct (IH s1) as (s2 & added2 & Hr2 & Hl2 & Hm2 & Ha2 & Hdom2 & Hin2 & Hxs).
    exists s2, (added1 ++ added2).
    rewrite for_each_cons, (bind_returns _ _ tt s s1 Hr1).
    split; [exact Hr2|]. rewrite Hl2, Hl1, Hm2, Hm1, Ha2, Ha1, app_assoc.
    repeat split; auto.
    + rewrite Hdom2. apply Hdom1.
    + rewrite Hdom2. apply Hdom1.
    + intros n j j' Hj Hin Hj'.
      assert (is_Some (jobs s1.1 !! n)) as [j1 Hj1] by (apply Hdom1; eauto).
      eapply Hin2; [exact Hj1| |exact Hj']. eapply Hin1; eauto.
    + intros n j' Hn Hj'. apply elem_of_cons in Hn as [->|Hn].
      * assert (is_Some (jobs s1.1 !! x)) as [j1 Hj1] by (apply Hdom2; eauto).
        destruct (Hx j1 Hj1) as [Hoff|[e He]].
        -- left. eapply Hin2; eauto.
        -- right. exists e. apply elem_of_app. now left.
      * destruct (Hxs n j' Hn Hj') as [Hoff|[e He]]; [now left|].
        right. exists e. apply elem_of_app. now right.
Qed.

(** X14. [cleanup] always returns, whatever the adapters and the endpoint
    do: afterwards every job of the registry is inactive or an error naming
    it was logged during the teardown, no job was added or removed, and the
    metrics and the assignments are as before. *)
Theorem cleanup_tears_down (s : System) :
  ∃ s' added,
    cleanup s = Return tt s'
    ∧ logged s'.1 = logged s.1 ++ added
    ∧ metrics s'.1 = metrics s.1
    ∧ job_assignments s'.1 = job_assignments s.1
    ∧ (∀ name, is_Some (jobs s'.1 !! name) ↔ is_Some (jobs s.1 !! name))
    ∧ ∀ name job, jobs s'.1 !! name = Some job →
        aj_active job = false ∨ ∃ e, ErrorCancel name e ∈ added.
Proof.
  unfold cleanup. destruct s as [o w].
  rewrite (bind_returns _ _ (o, w) (o, w) (o, w)) by reflexivity.
  cbn [fst snd].
  destruct (cleanup_loop (map_to_list (jobs o)).*1 (o, w))
    as (s1 & added & Hr & Hl & Hm & Ha & Hdom & _ & Hall).
  rewrite (bind_returns _ _ tt (o, w) s1 Hr).
  destruct s1 as [o1 w1]. cbn [fst snd] in *.
  rewrite (bind_returns _ _ (o1, w1) (o1, w1) (o1, w1)) by reflexivity.
  assert (Hkeeper : ∃ o2,
    (if chainlink_manager o1 is Some _
     then on_chainlink keeper_cleanup else mret tt) (o1, w1)
    = Return tt (o2, w1)
    ∧ jobs o2 = jobs o1 ∧ logged o2 = logged o1 ∧ metrics o2 = metrics o1
    ∧ job_assignments o2 = job_assignments o1).
  { destruct (chainlink_manager o1) as [km|] eqn:Hk.
    - unfold on_chainlink. cbn. rewrite Hk. eexists. split; [reflexivity|].
      cbn. auto.
    - exists o1. auto. }
  destruct Hkeeper as (o2 & Hr2 & Hj2 & Hl2 & Hm2 & Ha2).
  rewrite (bind_returns _ _ tt (o1, w1) (o2, w1) Hr2).
  rewrite (bind_returns _ _ (o2, w1) (o2, w1) (o2, w1)) by reflexivity.
  assert (Hrelay : ∃ s3,
    (if gelato_manager o2 is Some _
     then on_gelato gelato_cleanup else mret tt) (o2, w1)
    = Return tt s3
    ∧ jobs s3.1 = jobs o2 ∧ logged s3.1 = logged o2 ∧ metrics s3.1 = metrics o2
    ∧ job_assignments s3.1 = job_assignments o2).
  { destruct (gelato_manager o2) as [gm|] eqn:Hg.
    - unfold on_gelato. cbn. rewrite Hg.
      destruct (gelato_cleanup_returns (gm, w1)) as [[gm' w'] ->].
      eexists. split; [reflexivity|]. cbn. auto.
    - exists (o2, w1). auto. }
  destruct Hrelay as (s3 & Hr3 & Hj3 & Hl3 & Hm3 & Ha3).
  exists s3, added. split; [exact Hr3|].
  rewrite Hl3, Hl2, Hm3, Hm2, Ha3, Ha2, Hj3, Hj2.
  repeat split; auto; try apply Hdom.
  intros name job Hjob. apply (Hall name job); [|exact Hjob].
  assert (is_Some (jobs o !! name)) as [j0 Hj0] by (apply Hdom; eauto).
  apply list_elem_of_fmap. exists (name, j0). split; [reflexivity|].
  now apply elem_of_map_to_list.
Qed.

(** ** What a Chainlink status update counts *)

Section ChainlinkUpdate.

Variable fromisoformat : string → option datetime.

Lemma update_from_chainlink_turns (status : list (string * KeeperStatus)) :
  _update_metrics_from_chainlink fromisoformat status
  = for_each status (chainlink_turn fromisoformat).
Proof.
  unfold _update_metrics_from_chainlink. f_equal.
Qed.

Lemma for_each_final {S A} (x : A) (xs : list A) (body : A → Py S unit) (s : S) :
  final_state (for_each (x :: xs) body s)
  = match body x s with
    | Return _ s1 => final_state (for_each xs body s1)
    | Raise _ s1 => s1
    end.
Proof. rewrite for_each_cons. py_unfold. destruct (body x s); reflexivity. Qed.

(** The three outcomes of a turn: nothing, a raise that changes nothing, or
    one execution counted for the job of the entry. *)
Lemma chainlink_turn_cases (job_name : string) (job_status : KeeperStatus)
    (o : AutomationOrchestrator) :
  chainlink_turn fromisoformat (job_name, job_status) o = Return tt o
  ∧ (∀ m d, metrics o !! job_name = Some m →
            truthy (ks_last_execution job_status) = true →
            fromisoformat (default "" (ks_last_execution job_status)) = Some d →
            newer_than (last_execution_time m) d = false)
  ∨ (∃ m, metrics o !! job_name = Some m
          ∧ truthy (ks_last_execution job_status) = true
          ∧ fromisoformat (default "" (ks_last_execution job_status)) = None
          ∧ chainlink_turn fromisoformat (job_name, job_status) o
            = Raise (ValueError (InvalidIsoformat
                       (default "" (ks_last_execution job_status)))) o)
  ∨ (∃ m d, metrics o !! job_name = Some m
            ∧ truthy (ks_last_execution job_status) = true
            ∧ fromisoformat (default "" (ks_last_execution job_status)) = Some d
            ∧ newer_than (last_execution_time m) d = true
            ∧ chainlink_turn fromisoformat (job_name, job_status) o
              = Return tt (set_metrics (<[job_name := counted_once d m]>) o)).
Proof.
  unfold chainlink_turn, assign, parse_iso. py_unfold.
  destruct (metrics o !! job_name) as [m|] eqn:Hm;
    [|left; split; [reflexivity|discriminate]].
  destruct (truthy _) eqn:Ht;
    [|left; split; [reflexivity|discriminate]].
  destruct (fromisoformat _) as [d|] eqn:Hp.
  - cbn. destruct (newer_than _ d) eqn:Hn.
    + right. right. exists m, d. repeat split; auto. cbn.
      f_equal. unfold set_metrics. cbn. f_equal.
      rewrite !alter_alter_eq. apply map_eq. intros n.
      rewrite lookup_alter, lookup_insert. case_decide; [|reflexivity].
      subst. rewrite Hm. reflexivity.
    + left. split; [reflexivity|]. intros m' d' [= <-] _ [= <-]. exact Hn.
  - right. left. exists m. auto.
Qed.

Lemma chainlink_turn_raises (job_name : string) (job_status : KeeperStatus)
    (o : AutomationOrchestrator) :
  is_Some (metrics o !! job_name) →
  truthy (ks_last_execution job_status) = true →
  fromisoformat (default "" (ks_last_execution job_status)) = None →
  raised (chainlink_turn fromisoformat (job_name, job_status) o) ≠ None.
Proof.
  intros [m Hm] Ht Hp. unfold chainlink_turn, parse_iso. py_unfold.
  rewrite Hm, Ht, Hp. discriminate.
Qed.

(** X15. Every execution a Chainlink status update counts is counted as a
    success: for each job the update adds the same number to
    [total_executions] and [successful_executions], at most one per status
    entry naming the job, and never touches [failed_executions], the gas and
    the fees; a job executed several times between two polls is counted
    once. *)
Theorem chainlink_update_counts_successes
    (status : list (string * KeeperStatus)) (o : AutomationOrchestrator)
    (job_name : string) (m : ExecutionMetrics) :
  metrics o !! job_name = Some m →
  ∃ m' k,
    metrics (final_state (_update_metrics_from_chainlink fromisoformat status o))
      !! job_name = Some m'
    ∧ 0 ≤ k ≤ Z.of_nat (length (filter (λ kv, kv.1 = job_name) status))
    ∧ total_executions m' = total_executions m + k
    ∧ successful_executions m' = successful_executions m + k
    ∧ failed_executions m' = failed_executions m
    ∧ total_gas_used m' = total_gas_used m
    ∧ total_fees_paid m' = total_fees_paid m.
Proof.
  rewrite update_from_chainlink_turns. revert o m.
  induction status as [|[name js] status IH]; intros o m Hm.
  - exists m, 0. cbn. repeat split; auto; lia.
  - rewrite for_each_final.
    assert (Hlen : Z.of_nat (length (filter (λ kv, kv.1 = job_name) status))
                   ≤ Z.of_nat (length (filter (λ kv, kv.1 = job_name)
                                         ((name, js) :: status)))).
    { rewrite filter_cons. case_decide; cbn; lia. }
    destruct (chainlink_turn_cases name js o)
      as [[-> _]|[(m0 & _ & _ & _ & ->)|(m0 & d & Hm0 & _ & _ & _ & ->)]].
    + destruct (IH o m Hm) as (m' & k & H & Hk & Hrest).
      exists m', k. split; [exact H|]. split; [lia|exact Hrest].
    + exists m, 0. repeat split; auto; lia.
    + destruct (decide (name = job_name)) as [->|Hne].
      * assert (m0 = m) by congruence. subst m0.
        destruct (IH (set_metrics (<[job_name := counted_once d m]>) o)
                     (counted_once d m))
          as (m' & k & H & Hk & Ht & Hs & Hrest);
          [cbn; apply lookup_insert_eq|].
        exists m', (k + 1). split; [exact H|]. cbn in Ht, Hs, Hrest.
        rewrite filter_cons_True by reflexivity. cbn [length].
        repeat split; try lia; apply Hrest.
      * destruct (IH (set_metrics (<[name := counted_once d m0]>) o) m)
          as (m' & k & H & Hk & Hrest);
          [cbn; rewrite lookup_insert_ne by exact Hne; exact Hm|].
        exists m', k. split; [exact H|]. split; [lia|exact Hrest].
Qed.

#[global] Instance not_after_preorder : PreOrder not_after.
Proof.
  split.
  - intros [x|]; cbn; auto. reflexivity.
  - intros [x|] [y|] [z|]; cbn; auto; try contradiction. intros; lia.
Qed.

#[global] Instance metrics_later_preorder : PreOrder metrics_later.
Proof.
  split.
  - intros o name. destruct (metrics o !! name); [|reflexivity].
    eexists. split; [reflexivity|reflexivity].
  - intros a b c Hab Hbc name. specialize (Hab name). specialize (Hbc name).
    destruct (metrics a !! name) as [ma|].
    + destruct Hab as (mb & Eb & Lab). rewrite Eb in Hbc.
      destruct Hbc as (mc & Ec & Lbc). exists mc. split; [exact Ec|].
      etransitivity; eassumption.
    + rewrite Hab in Hbc. exact Hbc.
Qed.

Lemma chainlink_turn_later (item : string * KeeperStatus) :
  preserves metrics_later (chainlink_turn fromisoformat item).
Proof.
  intros o. destruct item as [name js].
  destruct (chainlink_turn_cases name js o)
    as [[-> _]|[(m0 & _ & _ & _ & ->)|(m0 & d & Hm0 & _ & _ & Hn & ->)]];
    [reflexivity|reflexivity|].
  cbn. intros n. cbn. rewrite lookup_insert. case_decide as E.
  - subst n. rewrite Hm0. eexists. split; [reflexivity|]. cbn.
    destruct (last_execution_time m0) as [l|]; cbn in *; [|exact I].
    case_bool_decide; [lia|discriminate].
  - destruct (metrics o !! n); [|reflexivity].
    eexists. split; [reflexivity|reflexivity].
Qed.

(** An entry is behind a state when the state's record of its job is not
    older than the entry. *)
Lemma behind_later (job_name : string) (d : datetime)
    (o o' : AutomationOrchestrator) :
  metrics_later o o' →
  (∀ m, metrics o !! job_name = Some m →
        newer_than (last_execution_time m) d = false) →
  ∀ m', metrics o' !! job_name = Some m' →
        newer_than (last_execution_time m') d = false.
Proof.
  intros Hl Hb m' Hm'. specialize (Hl job_name).
  destruct (metrics o !! job_name) as [m|] eqn:Hm; [|congruence].
  destruct Hl as (m2 & E2 & Hle). assert (m2 = m') by congruence. subst m2.
  specialize (Hb m eq_refl).
  destruct (last_execution_time m) as [l|]; [|discriminate].
  destruct (last_execution_time m') as [l'|]; [|contradiction].
  cbn in *. apply bool_decide_eq_false in Hb.
  apply bool_decide_eq_false_2. lia.
Qed.

(** X16. Polling the same Chainlink status again counts nothing: applying
    [_update_metrics_from_chainlink] twice to one status leaves the
    orchestrator exactly as applying it once, whether or not the update
    raises on the way. *)
Theorem chainlink_update_is_idempotent
    (status : list (string * KeeperStatus)) (o : AutomationOrchestrator) :
  let once :=
    final_state (_update_metrics_from_chainlink fromisoformat status o) in
  final_state (_update_metrics_from_chainlink fromisoformat status once) = once.
Proof.
  cbv zeta. rewrite update_from_chainlink_turns. revert o.
  induction status as [|[name js] status IH]; intros o; [reflexivity|].
  rewrite (for_each_final _ _ _ o).
  destruct (chainlink_turn_cases name js o)
    as [[Hr Hb]|[(m0 & _ & _ & _ & Hr)|(m0 & d & Hm0 & Ht & Hp & Hn & Hr)]];
    rewrite Hr.
  - (* the entry changed nothing *)
    set (o2 := final_state (for_each status (chainlink_turn fromisoformat) o)).
    assert (Hl : metrics_later o o2).
    { apply (preserves_for_each metrics_later), chainlink_turn_later. }
    rewrite for_each_final.
    destruct (chainlink_turn_cases name js o2)
      as [[-> _]|[(m2 & Hm2 & Ht2 & Hp2 & _)|(m2 & d2 & Hm2 & Ht2 & Hp2 & Hn2 & _)]].
    + apply IH.
    + exfalso. apply (chainlink_turn_raises name js o); [|exact Ht2|exact Hp2|].
      * specialize (Hl name). destruct (metrics o !! name); [eauto|congruence].
      * now rewrite Hr.
    + exfalso.
      assert (newer_than (last_execution_time m2) d2 = false); [|congruence].
      apply (behind_later name d2 o o2 Hl); [|exact Hm2].
      intros m Hm. now apply (Hb m d2).
  - rewrite for_each_final, Hr. reflexivity.
  - set (o1 := set_metrics (<[name := counted_once d m0]>) o).
    set (o2 := final_state (for_each status (chainlink_turn fromisoformat) o1)).
    assert (Hl : metrics_later o1 o2).
    { apply (preserves_for_each metrics_later), chainlink_turn_later. }
    rewrite for_each_final.
    destruct (chainlink_turn_cases name js o2)
      as [[-> _]|[(m2 & _ & _ & Hp2 & _)|(m2 & d2 & Hm2 & _ & Hp2 & Hn2 & _)]].
    + apply IH.
    + congruence.
    + exfalso. assert (d2 = d) by congruence. subst d2.
      assert (newer_than (last_execution_time m2) d = false); [|congruence].
      apply (behind_later name d o1 o2 Hl); [|exact Hm2].
      intros m. unfold o1. cbn. rewrite lookup_insert_eq. intros [= <-]. cbn.
      apply bool_decide_eq_false_2. lia.
Qed.

End ChainlinkUpdate.

Lemma chainlink_update_counts_successes_witness :
  ∃ m' k,
    metrics (final_state (_update_metrics_from_chainlink fromisoformat_basic
                            executed_once keeper_registered))
      !! "vault_rebalance" = Some m'
    ∧ 0 ≤ k ≤ Z.of_nat (length (filter (λ kv, kv.1 = "vault_rebalance")
                                   executed_once))
    ∧ total_executions m' = total_executions ExecutionMetrics_default + k
    ∧ successful_executions m'
      = successful_executions ExecutionMetrics_default + k
    ∧ failed_executions m' = failed_executions ExecutionMetrics_default
    ∧ total_gas_used m' = total_gas_used ExecutionMetrics_default
    ∧ total_fees_paid m' = total_fees_paid ExecutionMetrics_default.
Proof.
  apply (chainlink_update_counts_successes fromisoformat_basic executed_once
           keeper_registered "vault_rebalance" ExecutionMetrics_default).
  vm_compute. reflexivity.
Defined.

(** ** What a Gelato summary update does *)

Lemma set_metrics_insert_same (o : AutomationOrchestrator) (name : string)
    (m : ExecutionMetrics) :
  metrics o !! name = Some m → set_metrics (<[name := m]>) o = o.
Proof.
  intros Hm. destruct o as [k g j a ms l]. unfold set_metrics. cbn in *.
  f_equal. now apply insert_id.
Qed.

Section GelatoUpdate.

Variable fromisoformat : string → option datetime.

Lemma update_from_gelato_turns (summary : TaskSummary) :
  _update_metrics_from_gelato fromisoformat summary
  = for_each (default [] (sm_tasks summary)) (gelato_turn fromisoformat).
Proof. unfold _update_metrics_from_gelato. f_equal. Qed.

(** A turn on a job without metrics does nothing; on a job with metrics it
    recounts, then sets the timestamp or raises on it. *)
Lemma gelato_turn_cases (job_name : string) (info : TaskInfo)
    (o : AutomationOrchestrator) :
  match metrics o !! job_name with
  | None => gelato_turn fromisoformat (job_name, info) o = Return tt o
  | Some m =>
      let m1 := recounted (default 0 (ti_execution_count info))
                          (default 1%Q (ti_success_rate info)) m in
      if truthy (ti_last_execution info)
      then match fromisoformat (default "" (ti_last_execution info)) with
           | Some t =>
               gelato_turn fromisoformat (job_name, info) o
               = Return tt (set_metrics (<[job_name := em_set_last t m1]>) o)
           | None =>
               gelato_turn fromisoformat (job_name, info) o
               = Raise (ValueError (InvalidIsoformat
                          (default "" (ti_last_execution info))))
                   (set_metrics (<[job_name := m1]>) o)
           end
      else gelato_turn fromisoformat (job_name, info) o
           = Return tt (set_metrics (<[job_name := m1]>) o)
  end.
Proof.
  unfold gelato_turn, assign, parse_iso, recounted. py_unfold.
  destruct (metrics o !! job_name) as [m|] eqn:Hm; [|reflexivity].
  cbv zeta.
  assert (Halter : ∀ f, set_metrics (alter f job_name) o
                        = set_metrics (<[job_name := f m]>) o).
  { intros f. unfold set_metrics. f_equal. apply map_eq. intros n.
    rewrite lookup_alter, lookup_insert. case_decide; [|reflexivity].
    subst. now rewrite Hm. }
  case_bool_decide as Hc; cbn.
  - rewrite !set_metrics_alter_compose.
    destruct (truthy _); cbn.
    + destruct (fromisoformat _) as [t|]; cbn.
      * rewrite !set_metrics_alter_compose, Halter. reflexivity.
      * rewrite Halter. reflexivity.
    + rewrite Halter. reflexivity.
  - destruct (truthy _); cbn.
    + destruct (fromisoformat _) as [t|]; cbn.
      * rewrite Halter. reflexivity.
      * now rewrite (set_metrics_insert_same o job_name m Hm).
    + now rewrite (set_metrics_insert_same o job_name m Hm).
Qed.

(** A summary whose timestamps parse is applied entry by entry: each job it
    names gets [gelato_applied], the others keep their record. *)
Lemma gelato_loop (infos : list (string * TaskInfo))
    (o : AutomationOrchestrator) :
  NoDup infos.*1 →
  Forall (λ kv, truthy (ti_last_execution kv.2) = true →
                is_Some (fromisoformat (default "" (ti_last_execution kv.2))))
         infos →
  ∃ o',
    for_each infos (gelato_turn fromisoformat) o = Return tt o'
    ∧ jobs o' = jobs o ∧ job_assignments o' = job_assignments o
    ∧ ∀ name,
        metrics o' !! name
        = match list_find (λ kv, kv.1 = name) infos with
          | Some (_, (_, info)) => gelato_applied fromisoformat info
                                     <$> metrics o !! name
          | None => metrics o !! name
          end.
Proof.
  revert o. induction infos as [|[n info] infos IH]; intros o Hnd Hparse.
  - exists o. cbn. auto.
  - apply NoDup_cons in Hnd as [Hfresh Hnd].
    apply Forall_cons in Hparse as [Hp Hparse]. cbn [snd] in Hp.
    assert (Hturn : ∃ o1,
      gelato_turn fromisoformat (n, info) o = Return tt o1
      ∧ jobs o1 = jobs o ∧ job_assignments o1 = job_assignments o
      ∧ ∀ name, metrics o1 !! name
                = if decide (n = name)
                  then gelato_applied fromisoformat info <$> metrics o !! name
                  else metrics o !! name).
    { pose proof (gelato_turn_cases n info o) as Hc.
      unfold gelato_applied.
      destruct (metrics o !! n) as [m|] eqn:Hm.
      - cbv zeta in Hc. destruct (truthy (ti_last_execution info)) eqn:Ht.
        + destruct (Hp eq_refl) as [t Ht']. rewrite Ht' in Hc |- *.
          eexists. split; [exact Hc|]. cbn. repeat split.
          intros name. rewrite lookup_insert. case_decide; [|reflexivity].
          subst. now rewrite Hm.
        + eexists. split; [exact Hc|]. cbn. repeat split.
          intros name. rewrite lookup_insert. case_decide; [|reflexivity].
          subst. now rewrite Hm.
      - exists o. split; [exact Hc|]. repeat split.
        intros name. case_decide; [|reflexivity]. subst. now rewrite Hm. }
    destruct Hturn as (o1 & Hr1 & Hj1 & Ha1 & Hm1).
    destruct (IH o1 Hnd Hparse) as (o2 & Hr2 & Hj2 & Ha2 & Hm2).
    exists o2. rewrite for_each_cons, (bind_returns _ _ tt o o1 Hr1).
    split; [exact Hr2|]. split; [congruence|]. split; [congruence|].
    intros name. rewrite Hm2, Hm1. cbn [list_find fst].
    case_decide as Hn.
    + subst name. cbn.
      destruct (list_find (λ kv, kv.1 = n) infos) as [[i [n' info']]|] eqn:Hf;
        [|reflexivity].
      apply list_find_Some in Hf as (Hin & Heq & _). cbn in Heq. subst n'.
      exfalso. apply Hfresh. apply list_elem_of_fmap.
      exists (n, info'). split; [reflexivity|].
      eapply list_elem_of_lookup_2, Hin.
    + destruct (list_find _ infos) as [[i [n' info']]|]; reflexivity.
Qed.

Lemma list_find_key {V} (l : list (string * V)) (name : string) (v : V) :
  NoDup l.*1 → (name, v) ∈ l →
  ∃ i, list_find (λ kv, kv.1 = name) l = Some (i, (name, v)).
Proof.
  induction l as [|[n x] l IH]; intros Hnd Hin; [inversion Hin|].
  apply NoDup_cons in Hnd as [Hfresh Hnd]. cbn [list_find fst].
  apply elem_of_cons in Hin as [[= <- <-]|Hin].
  - rewrite decide_True by reflexivity. eauto.
  - rewrite decide_False.
    + destruct (IH Hnd Hin) as [i ->]. cbn. eauto.
    + intros ->. apply Hfresh. apply list_elem_of_fmap.
      exists (name, v). auto.
Qed.


End GelatoUpdate.


(** ** What an update step leaves alone *)

Lemma for_each_preserves_in {S A} (P : S → Prop) (body : A → Py S unit)
    (xs : list A) :
  (∀ x s, x ∈ xs → P s → P (final_state (body x s))) →
  ∀ s, P s → P (final_state (for_each xs body s)).
Proof.
  induction xs as [|x xs IH]; intros Hbody s Hs; [exact Hs|].
  rewrite for_each_final.
  pose proof (Hbody x s (list_elem_of_here _ _) Hs) as Hx.
  destruct (body x s) as [[] s'|e s']; cbn in Hx; [|exact Hx].
  apply IH; [|exact Hx]. intros y s0 Hy. apply Hbody. now right.
Qed.

Section UpdateFrame.

Variable fromisoformat : string → option datetime.

(** X18. A metrics-update step, returning or raising, never adds or
    removes a metrics record, leaves the record of every job its feed does
    not name exactly as it was, and changes nothing else of the
    orchestrator; in particular status entries for unknown jobs are
    ignored. *)
Theorem update_leaves_the_rest (u : metrics_update)
    (o : AutomationOrchestrator) :
  let o' := final_state (apply_update fromisoformat u o) in
  (∀ name, is_Some (metrics o' !! name) ↔ is_Some (metrics o !! name))
  ∧ (∀ name, name ∉ mentioned u → metrics o' !! name = metrics o !! name)
  ∧ jobs o' = jobs o
  ∧ job_assignments o' = job_assignments o
  ∧ chainlink_manager o' = chainlink_manager o
  ∧ gelato_manager o' = gelato_manager o
  ∧ logged o' = logged o.
Proof.
  intros o'.
  destruct (apply_update_evolves fromisoformat u o) as (Hk & Hg & Hj & Ha & Hl & Hm).
  fold o' in Hk, Hg, Hj, Ha, Hl, Hm.
  split; [|split; [|auto 10]].
  - intros name. specialize (Hm name).
    destruct (metrics o !! name) as [m|].
    + destruct Hm as (m' & -> & _). split; eauto.
    + rewrite Hm. reflexivity.
  - intros name Hname. subst o'. destruct u as [status|summary]; cbn in *.
    + rewrite update_from_chainlink_turns.
      apply (for_each_preserves_in (λ s, metrics s !! name = metrics o !! name));
        [|reflexivity].
      intros [n js] s Hin Hs.
      assert (n ≠ name).
      { intros ->. apply Hname. apply list_elem_of_fmap.
        exists (name, js). auto. }
      destruct (chainlink_turn_cases fromisoformat n js s)
        as [[-> _]|[(m0 & _ & _ & _ & ->)|(m0 & d & _ & _ & _ & _ & ->)]];
        cbn; [exact Hs|exact Hs|].
      now rewrite lookup_insert_ne.
    + rewrite update_from_gelato_turns.
      apply (for_each_preserves_in (λ s, metrics s !! name = metrics o !! name));
        [|reflexivity].
      intros [n info] s Hin Hs.
      assert (n ≠ name).
      { intros ->. apply Hname. apply list_elem_of_fmap.
        exists (name, info). auto. }
      pose proof (gelato_turn_cases fromisoformat n info s) as Hc.
      destruct (metrics s !! n) as [m|]; [|now rewrite Hc].
      cbv zeta in Hc. destruct (truthy _); [destruct (fromisoformat _)|];
        rewrite Hc; cbn; now rewrite lookup_insert_ne.
Qed.

End UpdateFrame.

Lemma update_leaves_the_rest_witness :
  metrics (final_state (apply_update fromisoformat_basic
                          (FromGelato three_executions) relay_registered))
    !! "yield_harvest"
  = metrics relay_registered !! "yield_harvest".
Proof.
  apply (update_leaves_the_rest fromisoformat_basic
           (FromGelato three_executions) relay_registered).
  cbn. intros H. apply list_elem_of_singleton in H. discriminate H.
Defined.

(** ** More on the running diff of [_process_task_status] *)

Lemma for_each_app {S A} (xs ys : list A) (body : A → Py S unit) (s : S) :
  for_each (xs ++ ys) body s
  = match for_each xs body s with
    | Return _ s' => for_each ys body s'
    | Raise e s' => Raise e s'
    end.
Proof.
  revert s. induction xs as [|x xs IH]; intros s; [reflexivity|].
  cbn [app]. rewrite !for_each_cons. py_unfold.
  destruct (body x s) as [[] s'|e s']; [apply IH|reflexivity].
Qed.

Lemma sorted_snoc (ts : list datetime) (t : datetime) :
  Sorted Z.lt ts → (∀ l, last ts = Some l → l < t) → Sorted Z.lt (ts ++ [t]).
Proof.
  induction ts as [|x ts IH]; intros Hs Hlast; [repeat constructor|].
  apply Sorted_inv in Hs as [Hs Hhd]. cbn [app]. constructor.
  - apply IH; [exact Hs|]. intros l Hl. apply Hlast.
    destruct ts; [discriminate Hl|exact Hl].
  - destruct ts as [|y ts]; constructor.
    + apply Hlast. reflexivity.
    + apply HdRel_inv in Hhd. exact Hhd.
Qed.

Lemma last_option_list (o : option datetime) : last (option_list o) = o.
Proof. destruct o; reflexivity. Qed.

Section TaskStatusAnyOrder.

Variable fromisoformat : string → option datetime.

(** The invariant of the loop of [_process_task_status], which holds of the
    state it returns or raises with. *)
Lemma process_task_status_appends (status : TaskStatus)
    (task : GelatoTask) (execs : list TaskExecution) :
  let s' := final_state (_process_task_status fromisoformat status (task, execs)) in
  ∃ added,
    s'.2 = execs ++ added
    ∧ Sorted Z.lt (option_list (gt_last_execution task)
                     ++ (te_execution_time <$> added))
    ∧ Forall (λ e, te_task_id e = gt_task_id task) added
    ∧ s'.1 = gt_with_last
               (last (option_list (gt_last_execution task)
                        ++ (te_execution_time <$> added))) task.
Proof.
  cbv zeta. unfold _process_task_status.
  apply (for_each_preserves
           (λ s : GelatoTask * list TaskExecution, ∃ added,
              s.2 = execs ++ added
              ∧ Sorted Z.lt (option_list (gt_last_execution task)
                               ++ (te_execution_time <$> added))
              ∧ Forall (λ e, te_task_id e = gt_task_id task) added
              ∧ s.1 = gt_with_last
                        (last (option_list (gt_last_execution task)
                                 ++ (te_execution_time <$> added))) task)).
  - intros entry [t es] (added & Hes & Hsorted & Hid & Ht). cbn [fst snd] in *.
    unfold parse_iso. destruct (fromisoformat _) as [d|]; py_unfold; cbn;
      [|exists added; auto].
    destruct (newer_than (gt_last_execution t) d) eqn:Hnew; cbn;
      [|exists added; auto].
    exists (added ++ [{| te_task_id := gt_task_id t; te_execution_time := d;
                         te_gas_used := default 0 (ee_gasUsed entry);
                         te_fee_paid := default 0 (ee_feePaid entry);
                         te_success := default false (ee_success entry);
                         te_error_message := ee_error entry |}]).
    rewrite fmap_app, !app_assoc. cbn [fmap list_fmap te_execution_time].
    rewrite last_snoc. subst t es. cbn in Hnew.
    split; [reflexivity|]. split; [|split; [|reflexivity]].
    + apply sorted_snoc; [exact Hsorted|]. intros l Hl.
      rewrite Hl in Hnew. cbn in Hnew. now apply bool_decide_eq_true_1 in Hnew.
    + apply Forall_app. split; [exact Hid|]. repeat constructor.
  - exists []. rewrite !app_nil_r, last_option_list, gt_with_last_same.
    cbn. split; [reflexivity|]. split; [|split; [constructor|reflexivity]].
    destruct (gt_last_execution task); repeat constructor.
Qed.

(** X19. Whatever the relay reports and in whatever order, and also when a
    timestamp fails to parse midway, [_process_task_status] only appends to
    the execution log; the records it appends carry the task's identifier and
    strictly increasing timestamps, all newer than the last-seen timestamp at
    the start, and the task changes in nothing but [last_execution], which
    ends as the timestamp of the last record appended. *)
Theorem process_task_status_increasing (status : TaskStatus)
    (task : GelatoTask) (execs : list TaskExecution) :
  let s' := final_state (_process_task_status fromisoformat status (task, execs)) in
  ∃ added,
    s'.2 = execs ++ added
    ∧ Sorted Z.lt (option_list (gt_last_execution task)
                     ++ (te_execution_time <$> added))
    ∧ Forall (λ e, te_task_id e = gt_task_id task) added
    ∧ s'.1 = gt_with_last
               (last (option_list (gt_last_execution task)
                        ++ (te_execution_time <$> added))) task.
Proof.
  intros s'. subst s'.
  destruct (process_task_status_appends status task execs)
    as (added & Hexecs & Hsorted & Hids & Htask).
  exists added. auto.
Qed.

(** X20. An entry whose timestamp is missing or does not parse aborts the
    poll with a [ValueError] in the middle of the list: the entries before it
    have been recorded and have moved last-seen, the entries after it are not
    looked at. *)
Theorem process_task_status_malformed (h : list (ExecutionEntry * datetime))
    (bad : ExecutionEntry) (rest : list ExecutionEntry)
    (task : GelatoTask) (execs : list TaskExecution) :
  Forall (λ et, fromisoformat (default "" (ee_timestamp et.1)) = Some et.2) h →
  fromisoformat (default "" (ee_timestamp bad)) = None →
  _process_task_status fromisoformat
    {| st_executions := Some (h.*1 ++ bad :: rest) |} (task, execs)
  = Raise (ValueError (InvalidIsoformat (default "" (ee_timestamp bad))))
      (gt_with_last (seen (gt_last_execution task) h) task,
       execs ++ (recorded (gt_task_id task) <$> kept (gt_last_execution task) h)).
Proof.
  intros Hparse Hbad.
  pose proof (process_history fromisoformat h Hparse task execs) as Hh.
  unfold _process_task_status in *. cbn [st_executions] in *.
  change (default [] (Some ?x)) with x in *.
  rewrite for_each_app, Hh, for_each_cons.
  unfold parse_iso. rewrite Hbad. reflexivity.
Qed.

(** X21. When the relay lists the executions newest first, a poll records
    the newest execution only, however many of them are newer than
    last-seen: after the first entry every other one is no newer than
    last-seen. *)
Theorem process_task_status_newest_first (e : ExecutionEntry) (t : datetime)
    (h : list (ExecutionEntry * datetime))
    (task : GelatoTask) (execs : list TaskExecution) :
  Forall (λ et, fromisoformat (default "" (ee_timestamp et.1)) = Some et.2)
         ((e, t) :: h) →
  Sorted Z.ge (t :: h.*2) →
  newer_than (gt_last_execution task) t = true →
  _process_task_status fromisoformat
    {| st_executions := Some ((e, t) :: h).*1 |} (task, execs)
  = Return tt (gt_with_last (Some t) task,
               execs ++ [recorded (gt_task_id task) (e, t)]).
Proof.
  intros Hparse Hsorted Hnew.
  rewrite (process_history fromisoformat _ Hparse).
  cbn [kept seen snd]. rewrite Hnew.
  destruct (kept_nothing h (Some t)) as [-> ->]; [|reflexivity].
  apply Sorted_StronglySorted in Hsorted; [|intros ???; lia].
  apply StronglySorted_inv in Hsorted as [_ Hall].
  apply Forall_forall. intros et Het. cbn.
  apply bool_decide_eq_false_2.
  rewrite Forall_forall in Hall.
  assert (t >= et.2); [|lia].
  apply Hall, list_elem_of_fmap. eauto.
Qed.

End TaskStatusAnyOrder.

Lemma process_task_status_malformed_witness :
  raised (_process_task_status fromisoformat_basic
            {| st_executions :=
                 Some (plain_history.*1
                         ++ {| ee_timestamp := None; ee_gasUsed := Some 21000;
                               ee_feePaid := Some 5; ee_success := Some true;
                               ee_error := None |} :: plain_history.*1) |}
            (harvest_task, []))
  = Some (ValueError (InvalidIsoformat "")).
Proof.
  rewrite (process_task_status_malformed fromisoformat_basic plain_history).
  - reflexivity.
  - repeat constructor.
  - reflexivity.
Defined.

Lemma process_task_status_newest_first_witness :
  ∃ task',
    _process_task_status fromisoformat_basic
      {| st_executions := Some (reverse plain_history).*1 |} (harvest_task, [])
    = Return tt (task', [recorded (gt_task_id harvest_task)
                           ({| ee_timestamp := Some "2024-01-01T13:30:00";
                               ee_gasUsed := Some 40000; ee_feePaid := Some 9;
                               ee_success := Some false;
                               ee_error := Some "reverted" |}, 20240101133000)]).
Proof.
  eexists.
  apply (process_task_status_newest_first fromisoformat_basic _ _
           [_; _] harvest_task []).
  - repeat constructor.
  - repeat constructor; cbn; lia.
  - reflexivity.
Defined.

(** ** The summary of the relay adapter and the polling turn *)

Lemma collect_returns {S A B} (body : A → Py S B) (f : A → B) (xs : list A)
    (s : S) :
  (∀ x, x ∈ xs → body x s = Return (f x) s) →
  collect body xs s = Return (f <$> xs) s.
Proof.
  induction xs as [|x xs IH]; intros Hbody; [reflexivity|].
  cbn. rewrite (bind_returns _ _ (f x) s s) by (apply Hbody; left).
  rewrite (bind_returns _ _ (f <$> xs) s s); [reflexivity|].
  apply IH. intros y Hy. apply Hbody. now right.
Qed.

Lemma truediv_unit (a b : Z) : 0 ≤ a ≤ b → 0 < b → (0 <= truediv a b <= 1)%Q.
Proof.
  intros [Ha Hab] Hb. unfold truediv.
  assert (0 < inject_Z b)%Q by (rewrite (Zlt_Qlt 0 b) in Hb; exact Hb).
  split.
  - apply Qle_shift_div_l; [assumption|]. rewrite Qmult_0_l.
    rewrite (Zle_Qle 0 a) in Ha. exact Ha.
  - apply Qle_shift_div_r; [assumption|]. rewrite Qmult_1_l.
    rewrite <- Zle_Qle. exact Hab.
Qed.

Lemma guarded_ratio_unit (a b : Z) : 0 ≤ a ≤ b → (0 <= guarded_ratio a b <= 1)%Q.
Proof.
  intros Hab. unfold guarded_ratio. case_bool_decide.
  - apply truediv_unit; lia.
  - split; [apply Qle_refl|discriminate].
Qed.

Lemma successes_bounds (es : list TaskExecution) :
  0 ≤ successes es ≤ Z.of_nat (length es).
Proof.
  unfold successes.
  pose proof (length_filter (λ e, te_success e = true) es). lia.
Qed.

Lemma sum_values_indicator {V} (f : V → Z) (d : gmap string V) :
  (∀ v, 0 ≤ f v ≤ 1) → 0 ≤ sum_values f d ≤ Z.of_nat (size d).
Proof.
  intros Hf. unfold sum_values. rewrite <- length_map_to_list.
  induction (map_to_list d) as [|kv l IH]; cbn [foldr length]; [lia|].
  specialize (Hf kv.2). lia.
Qed.

Lemma py_int_between (c : Z) (q : Q) :
  (0 <= q)%Q → (q <= inject_Z c)%Q → 0 ≤ py_int q ≤ c.
Proof.
  intros Hq0 Hq1. unfold py_int. unfold Qle in Hq0, Hq1. cbn in Hq0, Hq1.
  rewrite Z.quot_div_nonneg by lia. split.
  - apply Z.div_pos; lia.
  - apply Z.div_le_upper_bound; lia.
Qed.

Lemma py_int_bounds (c : Z) (r : Q) :
  0 ≤ c → (0 <= r <= 1)%Q → 0 ≤ py_int (inject_Z c * r) ≤ c.
Proof.
  intros Hc [H0 H1]. rewrite (Zle_Qle 0 c) in Hc.
  apply py_int_between.
  - apply Qmult_le_0_compat; [exact Hc|exact H0].
  - apply Qle_trans with (1 * inject_Z c)%Q.
    + rewrite Qmult_comm. apply Qmult_le_compat_r; [exact H1|exact Hc].
    + rewrite Qmult_1_l. apply Qle_refl.
Qed.

Lemma get_task_summary_returns (isoformat : datetime → string)
    (gm : GelatoManager) :
  get_task_summary isoformat gm = Return (summary_of isoformat gm) gm.
Proof.
  unfold get_task_summary.
  rewrite (bind_returns _ _ gm gm gm) by reflexivity.
  rewrite (bind_returns _ _
             ((λ kv, (kv.1, task_info_of isoformat gm kv.2))
                <$> map_to_list (tasks gm)) gm gm); [reflexivity|].
  apply collect_returns. intros [name task] _. cbn [fst snd].
  unfold task_info_of, guarded_ratio, div. cbv zeta.
  set (es := executions_of (gt_task_id task) gm).
  destruct es as [|e es'] eqn:Hes.
  - rewrite bool_decide_eq_false_2 by (intros H; now apply H).
    cbn. reflexivity.
  - rewrite bool_decide_eq_true_2 by discriminate.
    rewrite (bool_decide_eq_false_2 (_ = 0)) by (cbn [length]; lia).
    rewrite (bool_decide_eq_true_2 (_ > 0)) by (cbn [length]; lia).
    reflexivity.
Qed.


Section Polling.

Variable fromisoformat : string → option datetime.
Variable isoformat : datetime → string.
Variable keccak4 : string → string.

(** X23. Feeding the relay adapter's own summary to
    [_update_metrics_from_gelato], as a polling turn does: when the
    timestamps it printed parse back, the update returns, and for every task
    of the adapter that is a job with metrics the job's total becomes the
    larger of its old total and the number of execution records carrying the
    task's identifier, its last execution time is the task's, when the
    task has one, and counters that were not negative stay so. *)
Theorem polled_summary_counts_records (gm : GelatoManager)
    (o : AutomationOrchestrator) (name : string) (task : GelatoTask)
    (m : ExecutionMetrics) :
  (∀ n t d, tasks gm !! n = Some t → gt_last_execution t = Some d →
            isoformat d ≠ "" ∧ fromisoformat (isoformat d) = Some d) →
  tasks gm !! name = Some task →
  metrics o !! name = Some m →
  ∃ summary o' m',
    get_task_summary isoformat gm = Return summary gm
    ∧ _update_metrics_from_gelato fromisoformat summary o = Return tt o'
    ∧ metrics o' !! name = Some m'
    ∧ total_executions m'
      = Z.max (total_executions m)
              (Z.of_nat (length (executions_of (gt_task_id task) gm)))
    ∧ last_execution_time m'
      = match gt_last_execution task with
        | Some d => Some d
        | None => last_execution_time m
        end
    ∧ (0 ≤ successful_executions m → 0 ≤ failed_executions m →
       0 ≤ successful_executions m' ∧ 0 ≤ failed_executions m').
Proof.
  intros Hiso Htask Hm.
  set (infos := (λ kv : string * GelatoTask,
                   (kv.1, task_info_of isoformat gm kv.2))
                  <$> map_to_list (tasks gm)).
  assert (Hnd : NoDup infos.*1).
  { unfold infos. rewrite <- list_fmap_compose.
    rewrite (list_fmap_ext _ fst (map_to_list (tasks gm)))
      by (intros; reflexivity).
    apply NoDup_fst_map_to_list. }
  assert (Hparse : Forall (λ kv : string * TaskInfo,
            truthy (ti_last_execution kv.2) = true →
            is_Some (fromisoformat (default "" (ti_last_execution kv.2))))
            infos).
  { apply Forall_forall. intros [n info] Hin.
    apply list_elem_of_fmap in Hin as ([n' t] & [= -> ->] & Hin).
    apply elem_of_map_to_list in Hin. cbn.
    destruct (gt_last_execution t) as [d|] eqn:Hd; cbn; [|discriminate].
    intros _. destruct (Hiso n' t d Hin Hd) as [_ ->]. eauto. }
  assert (Hin : (name, task_info_of isoformat gm task) ∈ infos).
  { apply list_elem_of_fmap. exists (name, task). split; [reflexivity|].
    now apply elem_of_map_to_list. }
  destruct (gelato_loop fromisoformat infos o Hnd Hparse)
    as (o' & Hr & _ & _ & Hmetrics).
  destruct (list_find_key infos name _ Hnd Hin) as [i Hfind].
  exists (summary_of isoformat gm), o',
    (gelato_applied fromisoformat (task_info_of isoformat gm task) m).
  split; [apply get_task_summary_returns|].
  split; [rewrite update_from_gelato_turns; exact Hr|].
  split; [rewrite Hmetrics, Hfind, Hm; reflexivity|].
  pose proof (py_int_bounds
                (Z.of_nat (length (executions_of (gt_task_id task) gm)))
                (guarded_ratio
                   (successes (executions_of (gt_task_id task) gm))
                   (Z.of_nat (length (executions_of (gt_task_id task) gm))))
                ltac:(lia)
                (guarded_ratio_unit _ _ (successes_bounds _))) as Hint.
  unfold gelato_applied, recounted, task_info_of. cbn.
  destruct (gt_last_execution task) as [d|] eqn:Hd; cbn.
  - destruct (Hiso name task d Htask Hd) as [Hne ->].
    rewrite bool_decide_eq_false_2 by exact Hne. cbn.
    case_bool_decide; cbn; (split; [lia|]); (split; [reflexivity|]);
      intros; lia.
  - case_bool_decide; cbn; (split; [lia|]); (split; [reflexivity|]);
      intros; lia.
Qed.


End Polling.

Lemma polled_summary_counts_records_witness :
  ∃ o' m',
    _update_metrics_from_gelato fromisoformat_basic
      (summary_of isoformat_basic polled_relay) relay_registered
    = Return tt o'
    ∧ metrics o' !! "yield_harvest" = Some m'
    ∧ total_executions m' = 3.
Proof.
  destruct (polled_summary_counts_records fromisoformat_basic isoformat_basic
              polled_relay relay_registered "yield_harvest"
              (gt_with_last (Some 20240101133000) harvest_task)
              ExecutionMetrics_default)
    as (summary & o' & m' & Hs & Hu & Hm & Ht & _).
  - intros n t d Hn Hd. unfold polled_relay in Hn. cbn [tasks] in Hn.
    apply lookup_singleton_Some in Hn as [_ <-].
    injection Hd as <-. split; [discriminate|vm_compute; reflexivity].
  - reflexivity.
  - vm_compute. reflexivity.
  - rewrite get_task_summary_returns in Hs. injection Hs as <-.
    exists o', m'. split; [exact Hu|]. split; [exact Hm|].
    rewrite Ht. reflexivity.
Defined.


(** ** One turn of the relay adapter's monitoring loop *)

Lemma zoom_final {S T A} (proj : S → T) (upd : T → S → S) (m : Py T A) (s : S) :
  final_state (zoom proj upd m s) = upd (final_state (m (proj s))) s.
Proof. unfold zoom. destruct (m (proj s)); reflexivity. Qed.

Lemma sorted_last_not_before (l x : datetime) (ts : list datetime) :
  Sorted Z.lt (l :: ts) → last (l :: ts) = Some x → l ≤ x.
Proof.
  intros Hs Hl. apply Sorted_StronglySorted in Hs; [|intros ???; lia].
  apply StronglySorted_inv in Hs as [_ Hall].
  apply last_Some_elem_of in Hl. apply elem_of_cons in Hl as [->|Hin]; [lia|].
  rewrite Forall_forall in Hall. specialize (Hall x Hin). lia.
Qed.

Lemma not_after_last (since : option datetime) (ts : list datetime) :
  Sorted Z.lt (option_list since ++ ts) →
  not_after since (last (option_list since ++ ts)).
Proof.
  destruct since as [l|]; cbn; [|trivial]. intros Hs.
  destruct (last (l :: ts)) as [x|] eqn:Hl.
  - apply (sorted_last_not_before l x ts Hs Hl).
  - apply last_None in Hl. discriminate Hl.
Qed.

Lemma tasks_polled_refl (gm : GelatoManager) : tasks_polled gm gm.
Proof.
  split; [reflexivity|]. split; [reflexivity|]. split.
  - exists []. rewrite app_nil_r. split; [reflexivity|constructor].
  - intros name. destruct (tasks gm !! name) as [task|] eqn:Ht; [|reflexivity].
    exists (gt_last_execution task). rewrite gt_with_last_same.
    split; [reflexivity|]. split; [|reflexivity].
    destruct (gt_last_execution task); cbn; [lia|trivial].
Qed.

Section Monitoring.

Variable fromisoformat : string → option datetime.

(** X25. A turn of [monitor_tasks] never raises, whatever the relay answers
    or fails to answer.  It only appends to the execution log, records of
    active tasks that have an identifier; it adds and removes no task, and
    changes a task in nothing but its last-seen timestamp, which never moves
    back and does not move for an inactive task or one without
    identifier. *)
Theorem monitor_tasks_turn (respond : string → option TaskStatus)
    (gm : GelatoManager) :
  ∃ gm', monitor_tasks_once fromisoformat respond gm = Return tt gm'
         ∧ tasks_polled gm gm'.
Proof.
  unfold monitor_tasks_once, try_except.
  rewrite (bind_returns _ _ gm gm gm) by reflexivity.
  match goal with
  | |- context [for_each ?xs ?body gm] =>
      assert (Hloop : tasks_polled gm (final_state (for_each xs body gm)))
  end.
  { apply (for_each_preserves (tasks_polled gm)); [|apply tasks_polled_refl].
    clear. intros name s (Hacc & Hops & (added & Hexecs & Hadded) & Htasks).
    rewrite (bind_returns _ _ s s s) by reflexivity.
    pose proof (Htasks name) as Hname.
    destruct (tasks s !! name) as [t|] eqn:Ht;
      [|repeat split; eauto].
    destruct (tasks gm !! name) as [task|] eqn:Hgm; [|discriminate Hname].
    destruct Hname as (since & [= ->] & Hsince & Hskip).
    cbn [gt_active gt_task_id gt_with_last].
    destruct (negb (gt_active task) || negb (truthy (gt_task_id task)))
      eqn:Hcond; [repeat split; eauto|].
    apply orb_false_elim in Hcond as [Hactive Hid].
    apply negb_false_iff in Hactive, Hid.
    destruct (respond (default "" (gt_task_id task))) as [status|];
      [|repeat split; eauto].
    rewrite (bind_returns _ _ status s s) by reflexivity.
    rewrite zoom_final.
    destruct (process_task_status_appends fromisoformat status
                (gt_with_last since task) (executions s))
      as (added' & Hexecs' & Hsorted & Hids & Htask').
    destruct (final_state _) as [t' execs']. cbn [fst snd] in *.
    subst t' execs'.
    split; [exact Hacc|]. split; [exact Hops|]. split.
    - exists (added ++ added'). rewrite Hexecs, app_assoc.
      split; [reflexivity|]. apply Forall_app. split; [exact Hadded|].
      eapply Forall_impl; [exact Hids|]. intros e He. cbn in He.
      exists name, task. auto.
    - intros name'. cbn [tasks]. destruct (decide (name' = name)) as [->|Hne].
      + rewrite Hgm, lookup_insert_eq. eexists. split; [reflexivity|].
        split.
        * etrans; [exact Hsince|]. apply (not_after_last since), Hsorted.
        * intros [H|H]; congruence.
      + rewrite lookup_insert_ne by congruence. apply Htasks. }
  destruct (for_each _ _ gm) as [[] gm'|e gm']; cbn [final_state] in Hloop;
    eexists; (split; [reflexivity|exact Hloop]).
Qed.

End Monitoring.

(** ** Cancelling a relay task, and an endpoint that does not answer *)




(** ** The status report in reachable states *)

Lemma distribution_count (l : list (string * AutomationProvider))
    (d : gmap string Z) (p : AutomationProvider) :
  default 0 (foldl (λ d kv, <[value kv.2 := default 0 (d !! value kv.2) + 1]> d)
               d l !! value p)
  = default 0 (d !! value p)
    + Z.of_nat (length (filter (λ kv, kv.2 = p) l)).
Proof.
  revert d. induction l as [|[n q] l IH]; intros d; cbn [foldl].
  - rewrite filter_nil. cbn [length]. lia.
  - rewrite IH. cbn [snd]. destruct (decide (q = p)) as [->|Hne].
    + rewrite lookup_insert_eq, filter_cons_True by reflexivity.
      change (default 0 (Some ?x)) with x. cbn [length]. lia.
    + rewrite lookup_insert_ne by (destruct q, p; cbn; congruence).
      rewrite filter_cons_False by exact Hne. lia.
Qed.

Lemma distribution_absent (l : list (string * AutomationProvider))
    (d : gmap string Z) (p : AutomationProvider) :
  d !! value p = None →
  Forall (λ kv, kv.2 ≠ p) l →
  foldl (λ d kv, <[value kv.2 := default 0 (d !! value kv.2) + 1]> d) d l
    !! value p = None.
Proof.
  intros Hd Hl. revert d Hd.
  induction Hl as [|[n q] l Hq _ IH]; intros d Hd; [exact Hd|].
  cbn [foldl]. apply IH. cbn [snd] in *.
  rewrite lookup_insert_ne by (destruct q, p; cbn; congruence). exact Hd.
Qed.

Lemma providers_partition (l : list (string * AutomationProvider)) :
  Forall (λ kv, kv.2 ≠ AUTO) l →
  Z.of_nat (length (filter (λ kv, kv.2 = CHAINLINK) l))
  + Z.of_nat (length (filter (λ kv, kv.2 = GELATO) l))
  = Z.of_nat (length l).
Proof.
  induction 1 as [|[n q] l Hq _ IH]; [reflexivity|].
  cbn [snd] in Hq. destruct q; [| |congruence].
  - rewrite filter_cons_True by reflexivity.
    rewrite filter_cons_False by discriminate. cbn [length]. lia.
  - rewrite filter_cons_False by discriminate.
    rewrite filter_cons_True by reflexivity. cbn [length]. lia.
Qed.

Lemma get_job_status_value (isoformat : datetime → string)
    (o : AutomationOrchestrator) :
  (∀ name, is_Some (jobs o !! name) → is_Some (job_assignments o !! name)) →
  get_job_status isoformat o
  = Return
      {| st_total_jobs := Z.of_nat (size (jobs o));
         st_active_jobs :=
           sum_values (λ job, if aj_active job then 1 else 0) (jobs o);
         st_provider_distribution :=
           foldl (λ d kv, <[value kv.2 := default 0 (d !! value kv.2) + 1]> d)
                 ∅ (map_to_list (job_assignments o));
         st_jobs :=
           list_to_map
             ((λ kv, (kv.1, job_status_of isoformat o kv.1 kv.2
                              (default AUTO (job_assignments o !! kv.1))))
                <$> map_to_list (jobs o)) |} o.
Proof.
  intros Hdom. unfold get_job_status.
  rewrite (bind_returns _ _ o o o) by reflexivity. cbv zeta.
  erewrite (bind_returns _ _ _ o o).
  - reflexivity.
  - apply build_returns. intros [job_name job] Hin.
    apply elem_of_map_to_list in Hin.
    destruct (Hdom job_name) as [provider Hp]; [eauto|].
    cbn. rewrite Hp. cbn.
    rewrite (bind_returns _ _ provider o o) by reflexivity.
    rewrite (bind_returns _ _ _ o o (guarded_div _ _ _)).
    reflexivity.
Qed.

Section StatusCounts.

Variable fromisoformat : string → option datetime.
Variable isoformat : datetime → string.
Variable keccak4 : string → string.

(** X28. In every reachable state [get_job_status] returns figures that
    add up: the active jobs are at most the total, the provider
    distribution has no entry for "auto" and its counts for "chainlink" and
    "gelato" sum to the total number of jobs, and the report has one entry
    per job, whose provider is the one the job's record names. *)
Theorem job_status_adds_up (s : System) :
  reachable fromisoformat keccak4 s →
  ∃ st,
    get_job_status isoformat s.1 = Return st s.1
    ∧ st_total_jobs st = Z.of_nat (size (jobs s.1))
    ∧ 0 ≤ st_active_jobs st ≤ st_total_jobs st
    ∧ st_provider_distribution st !! "auto" = None
    ∧ default 0 (st_provider_distribution st !! "chainlink")
      + default 0 (st_provider_distribution st !! "gelato")
      = st_total_jobs st
    ∧ ∀ name,
        match jobs s.1 !! name with
        | Some job =>
            ∃ js, st_jobs st !! name = Some js
                  ∧ js_provider js = value (aj_provider job)
                  ∧ js_provider js ≠ "auto"
                  ∧ js_active js = aj_active job
        | None => st_jobs st !! name = None
        end.
Proof.
  intros Hreach.
  destruct (reachable_consistent fromisoformat keccak4 s Hreach)
    as [Hjobs Hassigned].
  set (o := s.1) in *.
  assert (Hdom : ∀ name, is_Some (jobs o !! name)
                         → is_Some (job_assignments o !! name)).
  { intros name [j Hj]. destruct (Hjobs name j Hj) as (_ & -> & _). eauto. }
  assert (Hnot_auto : Forall (λ kv : string * AutomationProvider, kv.2 ≠ AUTO)
                        (map_to_list (job_assignments o))).
  { apply Forall_forall. intros [name p] Hin.
    apply elem_of_map_to_list in Hin.
    destruct (Hassigned name) as [j Hj]; [eauto|].
    destruct (Hjobs name j Hj) as (_ & Ha & Hp & _).
    cbn. congruence. }
  assert (Hsize : size (job_assignments o) = size (jobs o)).
  { rewrite <- !size_dom. f_equal. apply set_eq. intros name.
    rewrite !elem_of_dom. split; [apply Hassigned|apply Hdom]. }
  eexists. split; [apply (get_job_status_value isoformat o Hdom)|].
  cbn [st_total_jobs st_active_jobs st_provider_distribution st_jobs].
  split; [reflexivity|]. split; [|split; [|split]].
  - apply sum_values_indicator. intros j. destruct (aj_active j); lia.
  - apply (distribution_absent _ ∅ AUTO); [apply lookup_empty|exact Hnot_auto].
  - rewrite (distribution_count _ ∅ CHAINLINK), (distribution_count _ ∅ GELATO).
    rewrite !lookup_empty. cbn [default].
    pose proof (providers_partition _ Hnot_auto) as Hsum.
    rewrite length_map_to_list in Hsum. lia.
  - intros name.
    rewrite (lookup_comprehension
               (λ k j, job_status_of isoformat o k j
                         (default AUTO (job_assignments o !! k)))).
    destruct (jobs o !! name) as [job|] eqn:Hjob; [|reflexivity].
    destruct (Hjobs name job Hjob) as (_ & Ha & Hp & _).
    eexists. split; [reflexivity|]. cbn. rewrite Ha. cbn.
    split; [reflexivity|]. split; [|reflexivity].
    destruct (aj_provider job); [discriminate|discriminate|congruence].
Qed.

End StatusCounts.

Lemma job_status_adds_up_witness :
  ∃ st,
    get_job_status isoformat_basic after_one_execution.1
    = Return st after_one_execution.1
    ∧ default 0 (st_provider_distribution st !! "chainlink")
      + default 0 (st_provider_distribution st !! "gelato")
      = st_total_jobs st.
Proof.
  destruct (job_status_adds_up fromisoformat_basic isoformat_basic keccak4_text
              after_one_execution after_one_execution_reachable)
    as (st & Hst & _ & _ & _ & Hsum & _).
  exists st. split; [exact Hst|exact Hsum].
Defined.

(** ** The relay adapter's own teardown *)






